(** * avocado/plasticc.py: the PLAsTiCC augmentor

    A shallow embedding of [PlasticcAugmentor] (src/avocado/plasticc.py) and
    the properties of its photo-z simulation, metadata augmentation, cadence
    selection, noise injection and detection simulation.

    Modelling conventions.
    - A Python float is an exact real number extended with the three special
      IEEE values ([npfloat]); rounding, overflow and underflow of doubles are
      not modelled.  The photo-z reference rows and the observation columns
      hold finite reals.
    - Every call into [np.random], [Dataset.load] and the cosmology object is
      an event of an interaction tree; the type of the answer of an event is
      the documented support of the draw.  A property that holds "for every
      random draw" is a property of every leaf of the tree; [while True] is
      [ITree.iter], with no bound on its passes.
    - A Python exception is the [inl] outcome of a computation.
    - [pandas.DataFrame] objects live in a heap and are passed by reference;
      the metadata [dict] is threaded explicitly. *)

From Stdlib Require Import Reals Lra Lia ZArith.
From stdpp Require Import base gmap strings list fin.
From ITree Require Import ITree ITreeFacts Props.Leaf Props.Finite.

Local Open Scope R_scope.

(** ** Floating point values, idealised *)

Module NumPy.

Inductive npfloat : Type :=
| Finite (x : R)
| PosInf
| NegInf
| NaN.

Coercion Finite : R >-> npfloat.

Definition Rltb (x y : R) : bool := if Rlt_dec x y then true else false.

Definition inf_scale (positive : bool) (x : R) : npfloat :=
  if Rltb 0 x then (if positive then PosInf else NegInf)
  else if Rltb x 0 then (if positive then NegInf else PosInf)
  else NaN.

Definition np_neg (a : npfloat) : npfloat :=
  match a with
  | Finite x => Finite (- x)
  | PosInf => NegInf
  | NegInf => PosInf
  | NaN => NaN
  end.

Definition np_add (a b : npfloat) : npfloat :=
  match a, b with
  | Finite x, Finite y => Finite (x + y)
  | NaN, _ | _, NaN => NaN
  | PosInf, NegInf | NegInf, PosInf => NaN
  | PosInf, _ | _, PosInf => PosInf
  | NegInf, _ | _, NegInf => NegInf
  end.

Definition np_sub (a b : npfloat) : npfloat := np_add a (np_neg b).

Definition np_mul (a b : npfloat) : npfloat :=
  match a, b with
  | Finite x, Finite y => Finite (x * y)
  | NaN, _ | _, NaN => NaN
  | Finite x, PosInf | PosInf, Finite x => inf_scale true x
  | Finite x, NegInf | NegInf, Finite x => inf_scale false x
  | PosInf, PosInf | NegInf, NegInf => PosInf
  | PosInf, NegInf | NegInf, PosInf => NegInf
  end.

(** [a < b] on floats: false as soon as one side is NaN. *)
Definition np_ltb (a b : npfloat) : bool :=
  match a, b with
  | Finite x, Finite y => Rltb x y
  | NaN, _ | _, NaN => false
  | _, NegInf => false
  | NegInf, _ => true
  | PosInf, _ => false
  | Finite _, PosInf => true
  end.

(** [np.min([a, b])]: NaN propagates. *)
Definition np_min (a b : npfloat) : npfloat :=
  match a, b with
  | Finite x, Finite y => Finite (Rmin x y)
  | NaN, _ | _, NaN => NaN
  | NegInf, _ | _, NegInf => NegInf
  | PosInf, c | c, PosInf => c
  end.

(** [np.log]: -inf at 0 and NaN below 0 (numpy warns, it does not raise). *)
Definition np_log (a : npfloat) : npfloat :=
  match a with
  | Finite x => if Rltb 0 x then Finite (ln x)
                else if Rltb x 0 then NaN else NegInf
  | PosInf => PosInf
  | NegInf => NaN
  | NaN => NaN
  end.

Definition np_exp (a : npfloat) : npfloat :=
  match a with
  | Finite x => Finite (exp x)
  | PosInf => PosInf
  | NegInf => Finite 0
  | NaN => NaN
  end.

(** [np.clip(x, lo, None)] *)
Definition np_clip_min (x lo : R) : R := Rmax x lo.

(** The integrand of the error function. *)
Definition gauss (t : R) : R := exp (- (t * t)).

Definition gauss_integrable (x : R) : Riemann_integrable gauss 0 x.
Proof.
  assert (C : forall t : R, continuity_pt gauss t).
  { intro t. unfold gauss. reg. }
  destruct (Rle_dec 0 x) as [Hx | Hx].
  - apply continuity_implies_RiemannInt; [exact Hx | intros; apply C].
  - apply RiemannInt_P1.
    apply continuity_implies_RiemannInt; [lra | intros; apply C].
Defined.

(** [scipy.special.erf] *)
Definition erf (x : R) : R := 2 / sqrt PI * RiemannInt (gauss_integrable x).

End NumPy.

Import NumPy.

(** ** Python values, exceptions and the environment of a call *)

Inductive pyval : Type :=
| PyBool (b : bool)
| PyInt (n : Z)
| PyFloat (x : npfloat).

(** Truth value of an object in an [if]. *)
Definition truthy (v : pyval) : bool :=
  match v with
  | PyBool b => b
  | PyInt n => negb (Z.eqb n 0)
  | PyFloat (Finite x) => if Req_dec_T x 0 then false else true
  | PyFloat _ => true
  end.

(** The float a value denotes in an arithmetic expression. *)
Definition to_float (v : pyval) : npfloat :=
  match v with
  | PyBool b => Finite (if b then 1 else 0)
  | PyInt n => Finite (IZR n)
  | PyFloat x => x
  end.

Inductive exn : Type :=
| KeyError (key : string)
| IndexError (index : nat)
| ValueError (message : string)
| UnboundLocalError (name : string)
| OverflowError (message : string)
| DanglingReference (address : nat).

(** What [np.random.uniform(low, high)] may yield.  The library computes
    the range [high - low] first and raises [OverflowError] when it is not
    finite, which is when a bound is infinite or NaN.  For finite bounds the
    draw is [low + (high - low) * u] with [u] in the unit interval. *)
Definition uniform_ok (low high : npfloat) (r : exn + npfloat) : Prop :=
  match low, high with
  | Finite a, Finite b =>
      exists v : R, r = inr (Finite v) /\ Rmin a b <= v <= Rmax a b
  | _, _ => r = inl (OverflowError "Range exceeds valid bounds")
  end.

Definition unit_interval (u : R) : Prop := 0 <= u < 1.

(** A row of the metadata table of a dataset, as far as the augmentor
    reads it. *)
Record host_metadata : Type := {
  host_specz : R;
  host_photoz : R;
  host_photoz_error : R
}.

(** [Dataset] (avocado/dataset.py), of which only the metadata is used. *)
Record Dataset : Type := {
  dataset_metadata : list host_metadata
}.

(** The calls that leave the module: [np.random], [Dataset.load], which
    returns the dataset or raises what the reading of it raised, and the base
    class [Augmentor] with its constructor and its cosmology object. *)
Variant envE : Type -> Type :=
| RandChoice (a : nat) : envE (fin a)
| RandChoiceP (a : nat) (p : list R) : envE (fin a)
| RandChoiceOf (a : list Z) : envE {x : Z | x ∈ a}
| RandNormal (loc scale : R) : envE R
| RandUniform (low high : npfloat) : envE {r : exn + npfloat | uniform_ok low high r}
| RandRand : envE {u : R | unit_interval u}
| RandLognormalV (mean sigma : list R)
    : envE {l : list R | length l = length mean /\ Forall (Rlt 0) l}
| RandNormalV (loc : R) (scale : list R)
    : envE {l : list R | length l = length scale}
| RandRandV (n : nat)
    : envE {l : list R | length l = n /\ Forall unit_interval l}
| DatasetLoad (name : string) (metadata_only : bool) : envE (exn + Dataset)
| AugmentorInit : envE (exn + unit)
| CosmologyDistmod (z : npfloat) : envE npfloat.

(** A computation: a tree of environment calls ending in an exception or a
    value. *)
Definition M (A : Type) : Type := itree envE (exn + A).

Definition py_ret {A : Type} (a : A) : M A := Ret (inr a).

Definition py_raise {A : Type} (e : exn) : M A := Ret (inl e).

Definition py_bind {A B : Type} (m : M A) (k : A -> M B) : M B :=
  ITree.bind m (fun r => match r with
                         | inl e => Ret (inl e)
                         | inr a => k a
                         end).

Definition py_call {A : Type} (e : envE A) : M A :=
  ITree.bind (ITree.trigger e) (fun a => Ret (inr a)).

Declare Scope py_scope.
Delimit Scope py_scope with py.
Notation "x ⇐ y ; z" := (py_bind y (fun x => z))
  (at level 20, y at level 100, z at level 200, only parsing) : py_scope.
Notation "' x ⇐ y ; z" := (py_bind y (fun x => z))
  (at level 20, x pattern, y at level 100, z at level 200, only parsing) : py_scope.
Local Open Scope py_scope.

Inductive loop_ctl (A : Type) : Type :=
| Continue
| Break (a : A).
Arguments Continue {A}.
Arguments Break {A} a.

(** [while True: body], where [body] ends in [continue] or [break]. *)
Definition while_true {A : Type} (body : M (loop_ctl A)) : M A :=
  ITree.iter (fun _ : unit =>
    ITree.bind body (fun r =>
      match r with
      | inl e => Ret (inr (inl e))
      | inr Continue => Ret (inl tt)
      | inr (Break a) => Ret (inr (inr a))
      end)) tt.

(** [d[key]] on a dict *)
Definition dict_getitem {V : Type} (d : gmap string V) (key : string) : M V :=
  match d !! key with
  | Some v => py_ret v
  | None => py_raise (KeyError key)
  end.

(** [a[i]] on a sequence *)
Definition seq_getitem {V : Type} (a : list V) (i : nat) : M V :=
  match a !! i with
  | Some v => py_ret v
  | None => py_raise (IndexError i)
  end.

(** [np.random.choice(a)] for an int [a]: numpy raises [ValueError] when
    [a] is 0, and otherwise draws from [range(a)]. *)
Definition np_random_choice (a : nat) : M nat :=
  match a with
  | O => py_raise (ValueError "a must be greater than 0")
  | S _ => i ⇐ py_call (RandChoice a) ; py_ret (fin_to_nat i)
  end.

Definition np_random_choice_p (a : nat) (p : list R) : M nat :=
  i ⇐ py_call (RandChoiceP a p) ; py_ret (fin_to_nat i).

Definition np_random_choice_of (a : list Z) : M Z :=
  x ⇐ py_call (RandChoiceOf a) ; py_ret (proj1_sig x).

Definition np_random_normal (loc scale : R) : M R := py_call (RandNormal loc scale).

Definition np_random_uniform (low high : npfloat) : M npfloat :=
  ITree.bind (ITree.trigger (RandUniform low high)) (fun r => Ret (proj1_sig r)).

Definition np_random_rand : M R :=
  u ⇐ py_call RandRand ; py_ret (proj1_sig u).

Definition np_random_lognormal_v (mean sigma : list R) : M (list R) :=
  l ⇐ py_call (RandLognormalV mean sigma) ; py_ret (proj1_sig l).

Definition np_random_normal_v (loc : R) (scale : list R) : M (list R) :=
  l ⇐ py_call (RandNormalV loc scale) ; py_ret (proj1_sig l).

Definition np_random_rand_v (n : nat) : M (list R) :=
  l ⇐ py_call (RandRandV n) ; py_ret (proj1_sig l).

(** [Dataset.load(name, metadata_only=...)] *)
Definition Dataset_load (name : string) (metadata_only : bool) : M Dataset :=
  ITree.trigger (DatasetLoad name metadata_only).

(** Modelled from the spec: the base class [Augmentor] (avocado/augment.py)
    is not part of this module; the spec names only the cosmology it
    provides, consumed as an external function.  Its constructor
    [Augmentor.__init__] is a call to the environment that returns or
    raises. *)
Definition Augmentor__init__ : M unit := ITree.trigger AugmentorInit.

(** [self.cosmology.distmod(z).value] *)
Definition cosmology_distmod (z : npfloat) : M npfloat := py_call (CosmologyDistmod z).

(** [[f(i) for i in l]] *)
Fixpoint list_comprehension {A B : Type} (f : A -> M B) (l : list A) : M (list B) :=
  match l with
  | [] => py_ret []
  | i :: l' =>
      y ⇐ f i ;
      ys ⇐ list_comprehension f l' ;
      py_ret (y :: ys)
  end.

(** [int(x)]: truncation towards zero *)
Definition py_int (x : R) : Z :=
  if Rltb x 0 then (- Int_part (- x))%Z else Int_part x.

(** [np.sum] of a boolean column *)
Definition np_sum_bool (l : list bool) : nat :=
  sum_list ((fun b : bool => if b then 1%nat else 0%nat) <$> l).

(** ** The augmentor *)

(** One row of the photo-z reference: spec-z, photo-z, photo-z error. *)
Definition photoz_row : Type := (R * R * R)%type.

(** The attributes of [self] that the methods below read and write. *)
Record PlasticcAugmentor : Type := {
  _test_dataset : option Dataset;
  _photoz_reference : option (list photoz_row)
}.

Definition _load_test_dataset (self : PlasticcAugmentor)
  : M (PlasticcAugmentor * Dataset) :=
  match _test_dataset self with
  | None =>
      test_dataset ⇐ Dataset_load "plasticc_test" true ;
      py_ret ({| _test_dataset := Some test_dataset;
                 _photoz_reference := _photoz_reference self |}, test_dataset)
  | Some test_dataset => py_ret (self, test_dataset)
  end.

Definition _load_photoz_reference (self : PlasticcAugmentor)
  : M (PlasticcAugmentor * list photoz_row) :=
  match _photoz_reference self with
  | None =>
      '(self, test_dataset) ⇐ _load_test_dataset self ;
      let cut_metadata :=
        List.filter (fun r => Rltb 0 (host_specz r)) (dataset_metadata test_dataset) in
      let result :=
        (fun r => (host_specz r, host_photoz r, host_photoz_error r)) <$> cut_metadata in
      py_ret ({| _test_dataset := _test_dataset self;
                 _photoz_reference := Some result |}, result)
  | Some photoz_reference => py_ret (self, photoz_reference)
  end.

(** [PlasticcAugmentor.__init__] *)
Definition PlasticcAugmentor__init__ : M PlasticcAugmentor :=
  'tt ⇐ Augmentor__init__ ;
  let self := {| _test_dataset := None; _photoz_reference := None |} in
  '(self, _) ⇐ _load_photoz_reference self ;
  py_ret self.

(** One pass through the body of the rejection loop of [_simulate_photoz]. *)
Definition _simulate_photoz_body (photoz_reference : list photoz_row)
    (redshift : npfloat) : M (loop_ctl (npfloat * R)) :=
  ref_idx ⇐ np_random_choice (length photoz_reference) ;
  '(ref_specz, ref_photoz, ref_photoz_err) ⇐ seq_getitem photoz_reference ref_idx ;
  sign ⇐ np_random_choice_of [(-1)%Z; 1%Z] ;
  let new_diff := (ref_photoz - ref_specz) * IZR sign in
  let new_photoz := np_add redshift new_diff in
  if np_ltb new_photoz 0 then py_ret Continue
  else
    noise ⇐ np_random_normal 1 0.05 ;
    let new_photoz_err := ref_photoz_err * noise in
    py_ret (Break (new_photoz, new_photoz_err)).

(** The write of [_load_photoz_reference] to the cache is not carried
    further: [__init__] has filled the cache, and a filled cache is only
    read. *)
Definition _simulate_photoz (self : PlasticcAugmentor) (redshift : npfloat)
  : M (npfloat * R) :=
  '(_, photoz_reference) ⇐ _load_photoz_reference self ;
  while_true (_simulate_photoz_body photoz_reference redshift).

Record AstronomicalObject : Type := {
  metadata : gmap string pyval
}.

Definition _augment_redshift (self : PlasticcAugmentor)
    (reference_object : AstronomicalObject)
    (augmented_metadata : gmap string pyval) : M (gmap string pyval) :=
  galactic ⇐ dict_getitem (metadata reference_object) "galactic" ;
  if truthy galactic then
    let augmented_metadata := <["redshift" := PyInt 0]> augmented_metadata in
    let augmented_metadata := <["host_specz" := PyInt 0]> augmented_metadata in
    let augmented_metadata := <["host_photoz" := PyInt 0]> augmented_metadata in
    let augmented_metadata := <["host_photoz_error" := PyInt 0]> augmented_metadata in
    brightness ⇐ np_random_normal 0.5 0.5 ;
    py_ret (<["augment_brightness" := PyFloat brightness]> augmented_metadata)
  else
    template_redshift ⇐ dict_getitem (metadata reference_object) "redshift" ;
    let template_redshift := to_float template_redshift in
    let min_redshift := np_mul 0.95 template_redshift in
    let max_redshift := np_mul 5 template_redshift in
    let max_redshift :=
      np_min max_redshift (np_sub (np_mul 1.5 (np_add 1 template_redshift)) 1) in
    log_redshift ⇐ np_random_uniform (np_log min_redshift) (np_log max_redshift) ;
    let aug_redshift := np_exp log_redshift in
    '(aug_photoz, aug_photoz_error) ⇐ _simulate_photoz self aug_redshift ;
    aug_distmod ⇐ cosmology_distmod aug_photoz ;
    let augmented_metadata := <["redshift" := PyFloat aug_redshift]> augmented_metadata in
    let augmented_metadata := <["host_specz" := PyFloat aug_redshift]> augmented_metadata in
    let augmented_metadata := <["host_photoz" := PyFloat aug_photoz]> augmented_metadata in
    let augmented_metadata :=
      <["host_photoz_error" := PyFloat aug_photoz_error]> augmented_metadata in
    py_ret (<["distmod" := PyFloat aug_distmod]> augmented_metadata).

Definition _augment_metadata (self : PlasticcAugmentor)
    (reference_object : AstronomicalObject) : M (gmap string pyval) :=
  let augmented_metadata := metadata reference_object in
  augmented_metadata ⇐ _augment_redshift self reference_object augmented_metadata ;
  ddf ⇐ dict_getitem (metadata reference_object) "ddf" ;
  augmented_metadata ⇐
    (if truthy ddf then
       u ⇐ np_random_rand ;
       py_ret (<["ddf" := PyBool (Rltb 0.8 u)]> augmented_metadata)
     else
       py_ret (<["ddf" := PyBool false]> augmented_metadata)) ;
  mwebv ⇐ dict_getitem augmented_metadata "mwebv" ;
  smear ⇐ np_random_normal 1 0.1 ;
  py_ret (<["mwebv" := PyFloat (np_mul (to_float mwebv) smear)]> augmented_metadata).

Definition _choose_target_observation_count
    (augmented_metadata : gmap string pyval) : M Z :=
  ddf ⇐ dict_getitem augmented_metadata "ddf" ;
  if truthy ddf then
    x ⇐ np_random_normal 330 30 ;
    py_ret (py_int x)
  else
    gauss_choice ⇐ np_random_choice_p 3 [0.05; 0.4; 0.55] ;
    '(mu, sigma) ⇐
      match gauss_choice with
      | 0%nat => py_ret (95, 20)
      | 1%nat => py_ret (115, 8)
      | 2%nat => py_ret (138, 8)
      | _ => py_raise (UnboundLocalError "mu")
      end ;
    x ⇐ np_random_normal mu sigma ;
    py_ret (py_int (np_clip_min x 50)).

(** *** Observation tables *)

Record row : Type := {
  band : string;
  flux : R;
  flux_error : R;
  detected : option bool
}.

Abbreviation DataFrame := (list row) (only parsing).

(** [observations['flux'] = column] and its siblings; columns are as long
    as the table. *)
Definition df_set_flux (column : list R) (df : DataFrame) : DataFrame :=
  zip_with (fun r v => {| band := band r; flux := v;
                          flux_error := flux_error r; detected := detected r |})
           df column.

Definition df_set_flux_error (column : list R) (df : DataFrame) : DataFrame :=
  zip_with (fun r v => {| band := band r; flux := flux r;
                          flux_error := v; detected := detected r |})
           df column.

Definition df_set_detected (column : list bool) (df : DataFrame) : DataFrame :=
  zip_with (fun r v => {| band := band r; flux := flux r;
                          flux_error := flux_error r; detected := Some v |})
           df column.

(** [observations['detected']] *)
Definition df_get_detected (df : DataFrame) : M (list bool) :=
  match mapM detected df with
  | Some column => py_ret column
  | None => py_raise (KeyError "detected")
  end.

(** DataFrames are objects: a variable holds a reference into the heap. *)
Abbreviation ref := nat (only parsing).
Abbreviation heap := (gmap nat DataFrame) (only parsing).

Definition heap_get (h : heap) (l : ref) : M DataFrame :=
  match h !! l with
  | Some df => py_ret df
  | None => py_raise (DanglingReference l)
  end.

(** [df.copy()]: a new object with the same contents *)
Definition df_copy (h : heap) (l : ref) : M (ref * heap) :=
  df ⇐ heap_get h l ;
  let l' := fresh (dom h) in
  py_ret (l', <[l' := df]> h).

Definition band_noises_ddf : gmap string (R * R) :=
  list_to_map [("lsstu", (0.68, 0.26)); ("lsstg", (0.25, 0.50));
               ("lsstr", (0.16, 0.36)); ("lssti", (0.53, 0.27));
               ("lsstz", (0.88, 0.22)); ("lssty", (1.76, 0.23))].

Definition band_noises_wfd : gmap string (R * R) :=
  list_to_map [("lsstu", (2.34, 0.43)); ("lsstg", (0.94, 0.41));
               ("lsstr", (1.30, 0.41)); ("lssti", (1.82, 0.42));
               ("lsstz", (2.56, 0.36)); ("lssty", (3.33, 0.37))].

Definition _simulate_light_curve_uncertainties (h : heap) (observations : ref)
    (augmented_metadata : gmap string pyval) : M (ref * heap) :=
  '(observations, h) ⇐ df_copy h observations ;
  df ⇐ heap_get h observations ;
  if Nat.eqb (length df) 0 then py_ret (observations, h)
  else
    ddf ⇐ dict_getitem augmented_metadata "ddf" ;
    let band_noises := if truthy ddf then band_noises_ddf else band_noises_wfd in
    lognormal_parameters ⇐
      list_comprehension (fun i => dict_getitem band_noises i) (band <$> df) ;
    add_stds ⇐ np_random_lognormal_v (fst <$> lognormal_parameters)
                                      (snd <$> lognormal_parameters) ;
    noise_add ⇐ np_random_normal_v 0 add_stds ;
    let h := alter (fun df => df_set_flux (zip_with Rplus (flux <$> df) noise_add) df)
                   observations h in
    let h := alter (fun df => df_set_flux_error
                      (zip_with (fun e s => sqrt (e ^ 2 + s ^ 2)) (flux_error <$> df) add_stds)
                      df)
                   observations h in
    py_ret (observations, h).

Definition _simulate_detection (h : heap) (observations : ref)
    (augmented_metadata : gmap string pyval) : M (ref * bool * heap) :=
  df ⇐ heap_get h observations ;
  let s2n := zip_with (fun f e => Rabs f / e) (flux <$> df) (flux_error <$> df) in
  let prob_detected := (fun s => (erf ((s - 5.5) / 2) + 1) / 2) <$> s2n in
  draws ⇐ np_random_rand_v (length s2n) ;
  let h := alter (df_set_detected (zip_with Rltb draws prob_detected)) observations h in
  df ⇐ heap_get h observations ;
  flags ⇐ df_get_detected df ;
  let pass_detection := Nat.leb 2 (np_sum_bool flags) in
  py_ret (observations, pass_detection, h).

(** ** Outcomes of a computation *)

(** [outcome m r]: for some answers of the environment, [m] ends in [r]. *)
Definition outcome {A : Type} (m : M A) (r : exn + A) : Prop := Leaf r m.

Definition returns {A : Type} (m : M A) (a : A) : Prop := outcome m (inr a).

Definition raises {A : Type} (m : M A) (e : exn) : Prop := outcome m (inl e).

(** [always_returns m]: whatever the environment answers, [m] comes to an
    end, it never ends in an exception, and it has a value to end in. *)
Definition always_returns {A : Type} (m : M A) : Prop :=
  all_finite m /\ (forall e, ~ raises m e) /\ exists a, returns m a.

(** A candidate photo-z of the rejection loop. *)
Definition candidate_photoz (redshift : npfloat) (r : photoz_row) (sign : Z) : npfloat :=
  np_add redshift ((snd (fst r) - fst (fst r)) * IZR sign).

(** The first [n] passes of [while True: body]: [Some a] when one of them
    breaks with [a], [None] when all of them end in [continue]. *)
Fixpoint loop_attempts {A : Type} (n : nat) (body : M (loop_ctl A)) : M (option A) :=
  match n with
  | O => py_ret None
  | S n' =>
      c ⇐ body ;
      match c with
      | Continue => loop_attempts n' body
      | Break a => py_ret (Some a)
      end
  end.

(** No reference row and no sign give a candidate that is accepted. *)
Definition never_accepted (photoz_reference : list photoz_row) (redshift : npfloat) : Prop :=
  forall (ref : photoz_row) (sign : Z),
    ref ∈ photoz_reference -> sign ∈ [(-1)%Z; 1%Z] ->
    np_ltb (candidate_photoz redshift ref sign) 0 = true.

(** src/avocado/instruments.py *)
Definition band_central_wavelengths : gmap string R :=
  list_to_map [("lsstu", 3671); ("lsstg", 4827); ("lsstr", 6223);
               ("lssti", 7546); ("lsstz", 8691); ("lssty", 9710)].

(** The bands of the instrument. *)
Definition known_band (b : string) : Prop := is_Some (band_central_wavelengths !! b).

Definition is_detected (r : row) : bool :=
  match detected r with
  | Some true => true
  | _ => false
  end.

(** The number of rows of a table that are flagged as detected. *)
Definition detected_count (df : DataFrame) : nat :=
  length (List.filter is_detected df).

(** The quadrature sum of an error and a noise amplitude. *)
Definition quadrature (error amplitude : R) : R := sqrt (error ^ 2 + amplitude ^ 2).

(** The flags that [_simulate_detection] draws for a table. *)
Definition detection_flags (df : DataFrame) (draws : list R) : list bool :=
  zip_with Rltb draws
    ((fun s => (erf ((s - 5.5) / 2) + 1) / 2) <$>
       zip_with (fun f e => Rabs f / e) (flux <$> df) (flux_error <$> df)).

(** The table that [_simulate_light_curve_uncertainties] makes of a table:
    the noise added to [flux], the amplitudes combined into [flux_error]. *)
Definition noised (df : DataFrame) (add_stds noise_add : list R) : DataFrame :=
  let df := df_set_flux (zip_with Rplus (flux <$> df) noise_add) df in
  df_set_flux_error
    (zip_with (fun e s => sqrt (e ^ 2 + s ^ 2)) (flux_error <$> df) add_stds) df.

(** *** Sample inputs *)

Definition sample_row : row :=
  {| band := "lsstr"; flux := 30; flux_error := 2; detected := None |}.

(** A heap with one table of one row, at address 0. *)
Definition sample_heap : gmap nat DataFrame := {[ 0%nat := [sample_row] ]}.

(** A heap with one empty table, at address 0. *)
Definition sample_empty_heap : gmap nat DataFrame := {[ 0%nat := [] ]}.

Definition sample_augmentor : PlasticcAugmentor :=
  {| _test_dataset := None; _photoz_reference := Some [(1, 2, 0.1)] |}.


Definition sample_metadata (galactic : bool) (redshift : R) : gmap string pyval :=
  <["galactic" := PyBool galactic]>
    (<["redshift" := PyFloat redshift]>
       (<["ddf" := PyBool false]> (<["mwebv" := PyFloat 0.1]> ∅))).

Definition sample_star : AstronomicalObject :=
  {| metadata := sample_metadata true 0 |}.

Definition sample_supernova : AstronomicalObject :=
  {| metadata := sample_metadata false 1 |}.


(** *** Terms of the further properties *)

(** The rows that [_load_photoz_reference] keeps of a dataset. *)
Definition photoz_cut (test_dataset : Dataset) : list photoz_row :=
  (fun r => (host_specz r, host_photoz r, host_photoz_error r)) <$>
    List.filter (fun r => Rltb 0 (host_specz r)) (dataset_metadata test_dataset).

(** The probability of detection at a signal to noise, as
    [_simulate_detection] writes it. *)
Definition prob_detected (s2n : R) : R := (erf ((s2n - 5.5) / 2) + 1) / 2.

(** src/avocado/instruments.py: colors for plotting *)
Definition band_plot_colors : gmap string string :=
  list_to_map [("lsstu", "C6"); ("lsstg", "C4"); ("lsstr", "C0");
               ("lssti", "C2"); ("lsstz", "C3"); ("lssty", "goldenrod")].

(** The signal to noise of a row, as [_simulate_detection] writes it. *)
Definition signal_to_noise (r : row) : R := Rabs (flux r) / flux_error r.

(** The keys that [_augment_metadata] and [_augment_redshift] assign. *)
Definition assigned_keys : list string :=
  ["redshift"; "host_specz"; "host_photoz"; "host_photoz_error";
   "augment_brightness"; "distmod"; "ddf"; "mwebv"].

(** A test dataset of two objects, one of them without a spec-z. *)
Definition sample_dataset : Dataset :=
  {| dataset_metadata :=
       [{| host_specz := 1; host_photoz := 2; host_photoz_error := 0.1 |};
        {| host_specz := 0; host_photoz := 3; host_photoz_error := 0.2 |}] |}.

(** A row of low signal to noise, and a heap that holds it in a table at
    address 0. *)
Definition sample_faint_row : row :=
  {| band := "lsstr"; flux := 4; flux_error := 2; detected := None |}.

Definition sample_faint_heap : gmap nat DataFrame := {[ 0%nat := [sample_faint_row] ]}.

(** [self] at the start of [__init__]. *)
Definition sample_unloaded : PlasticcAugmentor :=
  {| _test_dataset := None; _photoz_reference := None |}.

Section Outcomes.

Context {A B : Type}.

Lemma outcome_ret (a : A) : outcome (py_ret a) (inr a).
Proof. apply Leaf_Ret. Qed.

Lemma outcome_ret_inv (a : A) (r : exn + A) : outcome (py_ret a) r -> r = inr a.
Proof. apply Leaf_Ret_inv. Qed.

Lemma outcome_raise (e : exn) : outcome (@py_raise A e) (inl e).
Proof. apply Leaf_Ret. Qed.

Lemma outcome_raise_inv (e : exn) (r : exn + A) : outcome (py_raise e) r -> r = inl e.
Proof. apply Leaf_Ret_inv. Qed.

Lemma outcome_bind (m : M A) (k : A -> M B) (a : A) (r : exn + B) :
  outcome m (inr a) -> outcome (k a) r -> outcome (py_bind m k) r.
Proof. intros Hm Hk. apply (Leaf_bind m _ r (inr a)); assumption. Qed.

Lemma outcome_bind_raise (m : M A) (k : A -> M B) (e : exn) :
  outcome m (inl e) -> outcome (py_bind m k) (inl e).
Proof. intros Hm. apply (Leaf_bind m _ (inl e) (inl e)); [assumption | apply Leaf_Ret]. Qed.

Lemma outcome_bind_inv (m : M A) (k : A -> M B) (r : exn + B) :
  outcome (py_bind m k) r ->
  (exists e, r = inl e /\ outcome m (inl e)) \/
  (exists a, outcome m (inr a) /\ outcome (k a) r).
Proof.
  intros H. apply Leaf_bind_inv in H as ([e | a] & Hm & Hk).
  - left. exists e. apply Leaf_Ret_inv in Hk. auto.
  - right. exists a. auto.
Qed.

Lemma outcome_call (ev : envE A) (x : A) : outcome (py_call ev) (inr x).
Proof.
  unfold outcome, py_call. rewrite bind_trigger. apply Leaf_Vis with x, Leaf_Ret.
Qed.

Lemma outcome_call_inv (ev : envE A) (r : exn + A) :
  outcome (py_call ev) r -> exists x, r = inr x.
Proof.
  unfold outcome, py_call. rewrite bind_trigger. intros H.
  apply Leaf_Vis_inv in H as [x H]. apply Leaf_Ret_inv in H. eauto.
Qed.

Lemma always_returns_ret (a : A) : always_returns (py_ret a).
Proof.
  split; [apply all_finite_Ret |]. split.
  - intros e He. apply outcome_ret_inv in He. discriminate.
  - exists a. apply outcome_ret.
Qed.

Lemma always_returns_call (ev : envE A) (x : A) : always_returns (py_call ev).
Proof.
  split; [| split].
  - unfold py_call. apply all_finite_bind_weak; [apply all_finite_trigger |].
    intros y. apply all_finite_Ret.
  - intros e He. apply outcome_call_inv in He as [y He]. discriminate.
  - exists x. apply outcome_call.
Qed.

Lemma always_returns_bind (m : M A) (k : A -> M B) :
  always_returns m ->
  (forall a, returns m a -> always_returns (k a)) ->
  always_returns (py_bind m k).
Proof.
  intros (Hfin & Hok & a & Ha) Hk. split; [| split].
  - unfold py_bind. apply all_finite_bind; [exact Hfin |].
    intros [e | a'] Hleaf; [apply all_finite_Ret | now apply Hk].
  - intros e He. apply outcome_bind_inv in He as [(e' & _ & He) | (a' & Ha' & He)].
    + now apply Hok in He.
    + destruct (Hk a' Ha') as (_ & Hok' & _). now apply Hok' in He.
  - destruct (Hk a Ha) as (_ & _ & b & Hb). exists b. now apply outcome_bind with a.
Qed.

(** Loop rule: what holds of every exception and of every [break] of
    the body holds of every outcome of the loop. *)
Lemma outcome_while_true_inv (body : M (loop_ctl A)) (Q : exn + A -> Prop) :
  (forall e, outcome body (inl e) -> Q (inl e)) ->
  (forall a, outcome body (inr (Break a)) -> Q (inr a)) ->
  forall r, outcome (while_true body) r -> Q r.
Proof.
  intros He Hb r Hr.
  apply (Leaf_iter_inv _ tt (fun _ => True) Q) in Hr; [assumption | | exact I].
  intros [] x _ Hx. apply Leaf_bind_inv in Hx as (y & Hy & Hx).
  destruct y as [e | [| a]]; apply Leaf_Ret_inv in Hx; subst x; cbn; auto.
Qed.

Lemma outcome_while_true_break (body : M (loop_ctl A)) (a : A) :
  outcome body (inr (Break a)) -> outcome (while_true body) (inr a).
Proof.
  intros H. unfold outcome, while_true. rewrite unfold_iter, bind_bind.
  eapply Leaf_bind; [exact H |]. cbn. rewrite bind_ret_l. cbn. apply Leaf_Ret.
Qed.

Lemma outcome_while_true_raise (body : M (loop_ctl A)) (e : exn) :
  outcome body (inl e) -> outcome (while_true body) (inl e).
Proof.
  intros H. unfold outcome, while_true. rewrite unfold_iter, bind_bind.
  eapply Leaf_bind; [exact H |]. cbn. rewrite bind_ret_l. cbn. apply Leaf_Ret.
Qed.

(** [while True] is its first [n] passes followed by the loop again. *)
Lemma while_true_unroll (body : M (loop_ctl A)) (n : nat) :
  while_true body ≈
  py_bind (loop_attempts n body)
          (fun r => match r with
                    | Some a => py_ret a
                    | None => while_true body
                    end).
Proof.
  induction n as [| n IH]; cbn.
  - unfold py_bind, py_ret. rewrite bind_ret_l. reflexivity.
  - unfold while_true at 1. rewrite unfold_iter.
    unfold py_bind. rewrite !bind_bind.
    apply eutt_eq_bind. intros [e | [| a]].
    + rewrite !bind_ret_l. cbn. reflexivity.
    + rewrite bind_ret_l. cbn. rewrite tau_eutt. exact IH.
    + rewrite bind_ret_l. cbn. unfold py_ret. rewrite bind_ret_l. reflexivity.
Qed.

End Outcomes.

Lemma py_bind_ret_l {A B : Type} (a : A) (k : A -> M B) : py_bind (py_ret a) k ≈ k a.
Proof. unfold py_bind, py_ret. rewrite bind_ret_l. reflexivity. Qed.

#[global] Instance outcome_eutt {A : Type} :
  Proper (eutt eq ==> eq ==> iff) (@outcome A).
Proof. intros m m' Hm r r' <-. unfold outcome. now rewrite Hm. Qed.

#[global] Instance always_returns_eutt {A : Type} :
  Proper (eutt eq ==> iff) (@always_returns A).
Proof.
  intros m m' Hm. unfold always_returns, raises, returns.
  rewrite Hm. setoid_rewrite Hm. reflexivity.
Qed.

(** Inversion of an outcome through one constructor of a computation. *)
Tactic Notation "inv_bind" hyp(H) "as" simple_intropattern(a) simple_intropattern(Ha) :=
  apply outcome_bind_inv in H as [(? & ? & H) | (a & Ha & H)].

Tactic Notation "inv_bind_ok" hyp(H) "as" simple_intropattern(a) simple_intropattern(Ha) :=
  inv_bind H as a Ha; [discriminate |].

Ltac inv_ret H :=
  first [ apply outcome_ret_inv in H | apply outcome_raise_inv in H ];
  first [ discriminate H | injection H as H; subst | idtac ].

(** A call that hands on what the environment answers, a value or an
    exception: every answer is an outcome of it. *)
Lemma outcome_trigger {A : Type} (ev : envE (exn + A)) (r : exn + A) :
  outcome (ITree.trigger ev) r.
Proof. apply Leaf_Vis with r, Leaf_Ret. Qed.

(** ** Calls that always return *)

Lemma dict_getitem_total {V : Type} (d : gmap string V) (key : string) :
  is_Some (d !! key) -> always_returns (dict_getitem d key).
Proof. intros [v Hv]. unfold dict_getitem. rewrite Hv. apply always_returns_ret. Qed.

Lemma np_random_normal_total (loc scale : R) : always_returns (np_random_normal loc scale).
Proof. apply always_returns_call. exact 0. Qed.

Lemma np_random_rand_total : always_returns np_random_rand.
Proof.
  assert (H : unit_interval 0) by (unfold unit_interval; lra).
  apply always_returns_bind; [apply always_returns_call; exact (exist _ 0 H) |].
  intros u _. apply always_returns_ret.
Qed.

Lemma np_random_choice_p_total (a : nat) (p : list R) :
  always_returns (np_random_choice_p (S a) p).
Proof.
  apply always_returns_bind; [apply always_returns_call; exact 0%fin |].
  intros i _. apply always_returns_ret.
Qed.

Lemma np_random_rand_v_total (n : nat) : always_returns (np_random_rand_v n).
Proof.
  assert (H : length (replicate n 0) = n /\ Forall unit_interval (replicate n 0)).
  { split; [apply length_replicate |].
    apply Forall_replicate. unfold unit_interval. lra. }
  apply always_returns_bind; [apply always_returns_call; exact (exist _ _ H) |].
  intros l _. apply always_returns_ret.
Qed.

Lemma np_random_lognormal_v_total (mean sigma : list R) :
  always_returns (np_random_lognormal_v mean sigma).
Proof.
  assert (H : length (replicate (length mean) 1) = length mean /\
              Forall (Rlt 0) (replicate (length mean) 1)).
  { split; [apply length_replicate | apply Forall_replicate; lra]. }
  apply always_returns_bind; [apply always_returns_call; exact (exist _ _ H) |].
  intros l _. apply always_returns_ret.
Qed.

Lemma np_random_normal_v_total (loc : R) (scale : list R) :
  always_returns (np_random_normal_v loc scale).
Proof.
  apply always_returns_bind;
    [apply always_returns_call; exact (exist _ scale eq_refl) |].
  intros l _. apply always_returns_ret.
Qed.

Lemma list_comprehension_getitem_total {V : Type} (d : gmap string V)
    (keys : list string) :
  Forall (fun k => is_Some (d !! k)) keys ->
  always_returns (list_comprehension (fun i => dict_getitem d i) keys).
Proof.
  induction 1 as [| k keys Hk _ IH]; cbn; [apply always_returns_ret |].
  apply always_returns_bind; [now apply dict_getitem_total |].
  intros v _. apply always_returns_bind; [exact IH |].
  intros vs _. apply always_returns_ret.
Qed.

(** ** The photo-z simulator *)

Section Photoz.

Variable photoz_reference : list photoz_row.
Variable redshift : npfloat.

Lemma np_random_choice_inv (a : nat) (r : exn + nat) :
  outcome (np_random_choice a) r ->
  (a = 0%nat /\ r = inl (ValueError "a must be greater than 0")) \/
  (exists i : nat, (i < a)%nat /\ r = inr i).
Proof.
  destruct a as [| a]; cbn; intros H.
  - left. apply outcome_raise_inv in H. auto.
  - right. inv_bind H as i Hi.
    + apply outcome_call_inv in H as [? H]. discriminate.
    + apply outcome_ret_inv in H. exists (fin_to_nat i).
      split; [apply fin_to_nat_lt | exact H].
Qed.

Lemma np_random_choice_of_inv (a : list Z) (r : exn + Z) :
  outcome (np_random_choice_of a) r -> exists x : Z, x ∈ a /\ r = inr x.
Proof.
  unfold np_random_choice_of. intros H. inv_bind H as [x Hx] Hc.
  - apply outcome_call_inv in H as [? H]. discriminate.
  - apply outcome_ret_inv in H. exists x. auto.
Qed.

Lemma seq_getitem_inv {V : Type} (a : list V) (i : nat) (r : exn + V) :
  outcome (seq_getitem a i) r ->
  (exists v, a !! i = Some v /\ r = inr v) \/ (a !! i = None /\ r = inl (IndexError i)).
Proof.
  unfold seq_getitem. destruct (a !! i) as [v |]; intros H.
  - left. exists v. apply outcome_ret_inv in H. auto.
  - right. apply outcome_raise_inv in H. auto.
Qed.

(** A pass breaks out of the loop only with a candidate that is not below 0. *)
Lemma simulate_photoz_body_break (new_photoz : npfloat) (new_photoz_err : R) :
  outcome (_simulate_photoz_body photoz_reference redshift)
          (inr (Break (new_photoz, new_photoz_err))) ->
  exists (i : nat) (ref : photoz_row) (sign : Z) (noise : R),
    photoz_reference !! i = Some ref /\ sign ∈ [(-1)%Z; 1%Z] /\
    new_photoz = candidate_photoz redshift ref sign /\
    np_ltb new_photoz 0 = false /\
    new_photoz_err = snd ref * noise.
Proof.
  unfold _simulate_photoz_body. intros H.
  inv_bind_ok H as i Hi.
  inv_bind_ok H as [[ref_specz ref_photoz] ref_photoz_err] Hrow.
  apply seq_getitem_inv in Hrow as [(ref & Hrow & Heq) | [_ Heq]]; [| discriminate].
  injection Heq as <-.
  inv_bind_ok H as sign Hs.
  apply np_random_choice_of_inv in Hs as (sign' & Hs & Heq). injection Heq as <-.
  destruct (np_ltb _ _) eqn:Hlt.
  - inv_ret H.
  - inv_bind_ok H as noise Hn. inv_ret H.
    exists i, (ref_specz, ref_photoz, ref_photoz_err), sign, noise.
    repeat split; assumption.
Qed.

(** A pass raises only numpy's [ValueError], on an empty reference. *)
Lemma simulate_photoz_body_raise (e : exn) :
  outcome (_simulate_photoz_body photoz_reference redshift) (inl e) ->
  photoz_reference = [] /\ e = ValueError "a must be greater than 0".
Proof.
  unfold _simulate_photoz_body. intros H.
  inv_bind H as i Hi.
  { apply np_random_choice_inv in H as [[Hlen Heq] | (i & _ & Heq)]; [| discriminate].
    split; [now apply length_zero_iff_nil | congruence]. }
  apply np_random_choice_inv in Hi as [[_ Heq] | (i' & Hlt & Heq)]; [discriminate |].
  injection Heq as <-.
  inv_bind H as [[ref_specz ref_photoz] ref_photoz_err] Hrow.
  { apply seq_getitem_inv in H as [(ref & _ & Heq) | [Hnone _]]; [discriminate |].
    apply lookup_ge_None in Hnone. lia. }
  inv_bind H as sign Hs.
  { apply np_random_choice_of_inv in H as (? & _ & ?). discriminate. }
  destruct (np_ltb _ _).
  - inv_ret H.
  - inv_bind H as noise Hn; [| inv_ret H].
    apply outcome_call_inv in H as [? H]. discriminate.
Qed.

Lemma np_random_choice_intro (a i : nat) :
  (i < a)%nat -> outcome (np_random_choice a) (inr i).
Proof.
  intros Hlt. destruct a as [| a]; [lia |]. cbn.
  apply outcome_bind with (nat_to_fin Hlt); [apply outcome_call |].
  rewrite fin_to_nat_to_fin. apply outcome_ret.
Qed.

Lemma np_random_choice_of_intro (a : list Z) (x : Z) :
  x ∈ a -> outcome (np_random_choice_of a) (inr x).
Proof.
  intros Hx. unfold np_random_choice_of.
  apply outcome_bind with (exist _ x Hx); [apply outcome_call | apply outcome_ret].
Qed.

Lemma simulate_photoz_body_draws (i : nat) (ref : photoz_row) (sign : Z)
    (r : exn + loop_ctl (npfloat * R)) :
  photoz_reference !! i = Some ref -> sign ∈ [(-1)%Z; 1%Z] ->
  outcome (if np_ltb (candidate_photoz redshift ref sign) 0 then py_ret Continue
           else noise ⇐ np_random_normal 1 0.05 ;
                py_ret (Break (candidate_photoz redshift ref sign, snd ref * noise))) r ->
  outcome (_simulate_photoz_body photoz_reference redshift) r.
Proof.
  intros Hi Hs H. unfold _simulate_photoz_body.
  apply outcome_bind with i.
  { apply np_random_choice_intro. now apply lookup_lt_Some in Hi. }
  apply outcome_bind with ref.
  { unfold seq_getitem. rewrite Hi. apply outcome_ret. }
  destruct ref as [[ref_specz ref_photoz] ref_photoz_err].
  apply outcome_bind with sign; [now apply np_random_choice_of_intro |].
  exact H.
Qed.

(** A candidate that is not below 0 may be accepted, with any noise. *)
Lemma simulate_photoz_body_accept (i : nat) (ref : photoz_row) (sign : Z) (noise : R) :
  photoz_reference !! i = Some ref -> sign ∈ [(-1)%Z; 1%Z] ->
  np_ltb (candidate_photoz redshift ref sign) 0 = false ->
  outcome (_simulate_photoz_body photoz_reference redshift)
          (inr (Break (candidate_photoz redshift ref sign, snd ref * noise))).
Proof.
  intros Hi Hs Hlt. apply (simulate_photoz_body_draws i ref sign); [assumption .. |].
  rewrite Hlt. apply outcome_bind with noise; [apply outcome_call | apply outcome_ret].
Qed.

(** A candidate below 0 sends the loop round again. *)
Lemma simulate_photoz_body_reject (i : nat) (ref : photoz_row) (sign : Z) :
  photoz_reference !! i = Some ref -> sign ∈ [(-1)%Z; 1%Z] ->
  np_ltb (candidate_photoz redshift ref sign) 0 = true ->
  outcome (_simulate_photoz_body photoz_reference redshift) (inr Continue).
Proof.
  intros Hi Hs Hlt. apply (simulate_photoz_body_draws i ref sign); [assumption .. |].
  rewrite Hlt. apply outcome_ret.
Qed.

End Photoz.

Lemma Rltb_true (x y : R) : Rltb x y = true <-> x < y.
Proof. unfold Rltb. destruct (Rlt_dec x y); split; intros; try lra; discriminate. Qed.

Lemma Rltb_false (x y : R) : Rltb x y = false <-> y <= x.
Proof. unfold Rltb. destruct (Rlt_dec x y); split; intros; try lra; discriminate. Qed.

(** With the cache filled, [_load_photoz_reference] reads it and calls
    nothing. *)
Lemma load_photoz_reference_cached (self : PlasticcAugmentor)
    (photoz_reference : list photoz_row) :
  _photoz_reference self = Some photoz_reference ->
  _load_photoz_reference self = py_ret (self, photoz_reference).
Proof. intros H. unfold _load_photoz_reference. now rewrite H. Qed.

(** [__init__] leaves the cache filled, with rows of positive spec-z. *)
Lemma init_fills_photoz_reference (self : PlasticcAugmentor) :
  returns PlasticcAugmentor__init__ self ->
  exists photoz_reference : list photoz_row,
    _photoz_reference self = Some photoz_reference /\
    Forall (fun r => 0 < fst (fst r)) photoz_reference.
Proof.
  unfold returns, PlasticcAugmentor__init__, _load_photoz_reference, _load_test_dataset.
  cbn. intros H.
  inv_bind_ok H as [] Hinit.
  inv_bind_ok H as [self' reference] Hload. inv_ret H.
  inv_bind_ok Hload as [self2 test_dataset] Hds.
  inv_bind_ok Hds as ds Hcall. inv_ret Hds. inv_ret Hload.
  eexists. split; [reflexivity |].
  apply Forall_fmap. apply Forall_forall. intros r Hr.
  apply filter_In in Hr as [_ Hr].
  cbn. now apply Rltb_true.
Qed.

Section PhotozCached.

Variable self : PlasticcAugmentor.
Variable photoz_reference : list photoz_row.
Hypothesis Hcache : _photoz_reference self = Some photoz_reference.

Lemma simulate_photoz_cached (redshift : npfloat) :
  _simulate_photoz self redshift ≈
  while_true (_simulate_photoz_body photoz_reference redshift).
Proof.
  unfold _simulate_photoz. rewrite (load_photoz_reference_cached _ _ Hcache).
  rewrite py_bind_ret_l. reflexivity.
Qed.

(** The outcomes of [_simulate_photoz]: the accepted candidates, and numpy's
    error on an empty reference. *)
Lemma simulate_photoz_returns (redshift new_photoz : npfloat) (new_photoz_err : R) :
  returns (_simulate_photoz self redshift) (new_photoz, new_photoz_err) <->
  exists (i : nat) (ref : photoz_row) (sign : Z) (noise : R),
    photoz_reference !! i = Some ref /\ sign ∈ [(-1)%Z; 1%Z] /\
    new_photoz = candidate_photoz redshift ref sign /\
    np_ltb new_photoz 0 = false /\
    new_photoz_err = snd ref * noise.
Proof.
  unfold returns. rewrite simulate_photoz_cached. split.
  - intros H.
    apply (outcome_while_true_inv _
             (fun r => match r with
                       | inl _ => True
                       | inr (p, e) =>
                           exists i ref sign noise,
                             photoz_reference !! i = Some ref /\
                             sign ∈ [(-1)%Z; 1%Z] /\
                             p = candidate_photoz redshift ref sign /\
                             np_ltb p 0 = false /\ e = snd ref * noise
                       end)) in H; [exact H | trivial |].
    intros [p e] Hb. now apply simulate_photoz_body_break.
  - intros (i & ref & sign & noise & Hi & Hs & -> & Hlt & ->).
    apply outcome_while_true_break. now apply (simulate_photoz_body_accept _ _ i).
Qed.

Lemma simulate_photoz_raises (redshift : npfloat) (e : exn) :
  raises (_simulate_photoz self redshift) e ->
  photoz_reference = [] /\ e = ValueError "a must be greater than 0".
Proof.
  unfold raises. rewrite simulate_photoz_cached. intros H.
  apply (outcome_while_true_inv _
           (fun r => match r with
                     | inl e => photoz_reference = [] /\
                                e = ValueError "a must be greater than 0"
                     | inr _ => True
                     end)) in H; [exact H | | trivial].
  intros e' He'. now apply simulate_photoz_body_raise in He'.
Qed.

(** For a redshift that is not negative, each reference row has a sign whose
    candidate is accepted: with a non-empty reference the loop can return. *)
Lemma simulate_photoz_may_return (z : R) :
  0 <= z -> photoz_reference <> [] ->
  exists r, returns (_simulate_photoz self z) r.
Proof.
  intros Hz Hne.
  assert (exists ref, photoz_reference !! 0%nat = Some ref)
    as [[[ref_specz ref_photoz] ref_photoz_err] Href].
  { clear Hcache. destruct photoz_reference as [| ref l]; [done | eauto]. }
  destruct (Rle_dec 0 (ref_photoz - ref_specz)) as [Hd | Hd].
  - exists (candidate_photoz z (ref_specz, ref_photoz, ref_photoz_err) 1, ref_photoz_err * 1).
    apply simulate_photoz_returns.
    exists 0%nat, (ref_specz, ref_photoz, ref_photoz_err), 1%Z, 1.
    repeat split; [exact Href | set_solver |].
    cbn. apply Rltb_false. lra.
  - exists (candidate_photoz z (ref_specz, ref_photoz, ref_photoz_err) (-1), ref_photoz_err * 1).
    apply simulate_photoz_returns.
    exists 0%nat, (ref_specz, ref_photoz, ref_photoz_err), (-1)%Z, 1.
    repeat split; [exact Href | set_solver |].
    cbn. apply Rltb_false. lra.
Qed.

End PhotozCached.

(** C4: for every true redshift [z > 0] and every non-empty reference table,
    [_simulate_photoz] has runs that return, and whatever the draws, a
    photo-z that it returns is a number that is at least 0. *)
Theorem simulate_photoz_nonnegative (self : PlasticcAugmentor)
    (photoz_reference : list photoz_row) (z : R) :
  _photoz_reference self = Some photoz_reference ->
  0 < z -> photoz_reference <> [] ->
  (exists r, returns (_simulate_photoz self z) r) /\
  (forall (photoz : npfloat) (photoz_err : R),
      returns (_simulate_photoz self z) (photoz, photoz_err) ->
      exists v : R, photoz = Finite v /\ 0 <= v).
Proof.
  intros Hcache Hz Hne. split.
  { apply (simulate_photoz_may_return _ _ Hcache); [lra | exact Hne]. }
  intros photoz photoz_err H. apply (simulate_photoz_returns _ _ Hcache) in H
    as (i & [[ref_specz ref_photoz] ref_photoz_err] & sign & noise & _ & _ & -> & Hlt & _).
  cbn in *. eexists. split; [reflexivity |]. now apply Rltb_false in Hlt.
Qed.

Lemma simulate_photoz_nonnegative_witness :
  (exists r, returns (_simulate_photoz sample_augmentor 0.5) r) /\
  (forall (photoz : npfloat) (photoz_err : R),
      returns (_simulate_photoz sample_augmentor 0.5) (photoz, photoz_err) ->
      exists v : R, photoz = Finite v /\ 0 <= v).
Proof.
  apply (simulate_photoz_nonnegative sample_augmentor [(1, 2, 0.1)] 0.5);
    [reflexivity | lra | discriminate].
Defined.






(** ** The metadata augmentor *)

Lemma dict_getitem_inv {V : Type} (d : gmap string V) (key : string) (r : exn + V) :
  outcome (dict_getitem d key) r ->
  (exists v, d !! key = Some v /\ r = inr v) \/ (d !! key = None /\ r = inl (KeyError key)).
Proof.
  unfold dict_getitem. destruct (d !! key) as [v |]; intros H.
  - left. exists v. apply outcome_ret_inv in H. auto.
  - right. apply outcome_raise_inv in H. auto.
Qed.

Lemma np_random_uniform_inv (low high : npfloat) (r : exn + npfloat) :
  outcome (np_random_uniform low high) r -> uniform_ok low high r.
Proof.
  unfold outcome, np_random_uniform. rewrite bind_trigger. intros H.
  apply Leaf_Vis_inv in H as [[x Hx] H]. apply Leaf_Ret_inv in H. now subst r.
Qed.

Lemma np_random_uniform_intro (low high : npfloat) (r : exn + npfloat) :
  uniform_ok low high r -> outcome (np_random_uniform low high) r.
Proof.
  intros Hr. unfold outcome, np_random_uniform. rewrite bind_trigger.
  apply Leaf_Vis with (exist _ r Hr), Leaf_Ret.
Qed.

Lemma np_log_pos (x : R) : 0 < x -> np_log x = Finite (ln x).
Proof. intros Hx. cbn. now apply Rltb_true in Hx as ->. Qed.



Section AugmentRedshift.

Variable self : PlasticcAugmentor.
Variable reference_object : AstronomicalObject.
Variable galactic : pyval.
Hypothesis Hgalactic : metadata reference_object !! "galactic" = Some galactic.

(** The galactic branch: four fields forced to [0], one Gaussian draw. *)
Lemma augment_redshift_galactic (augmented_metadata : gmap string pyval) :
  truthy galactic = true ->
  _augment_redshift self reference_object augmented_metadata ≈
  (brightness ⇐ np_random_normal 0.5 0.5 ;
   py_ret (<["augment_brightness" := PyFloat brightness]>
             (<["host_photoz_error" := PyInt 0]>
                (<["host_photoz" := PyInt 0]>
                   (<["host_specz" := PyInt 0]>
                      (<["redshift" := PyInt 0]> augmented_metadata)))))).
Proof.
  intros Ht. unfold _augment_redshift, dict_getitem. rewrite Hgalactic.
  rewrite py_bind_ret_l, Ht. reflexivity.
Qed.

(** The other branch: no test on the template redshift comes between
    reading it and the log-uniform draw. *)
Lemma augment_redshift_extragalactic (augmented_metadata : gmap string pyval)
    (template_redshift : pyval) :
  truthy galactic = false ->
  metadata reference_object !! "redshift" = Some template_redshift ->
  _augment_redshift self reference_object augmented_metadata ≈
  (let z := to_float template_redshift in
   log_redshift ⇐ np_random_uniform
       (np_log (np_mul 0.95 z))
       (np_log (np_min (np_mul 5 z) (np_sub (np_mul 1.5 (np_add 1 z)) 1))) ;
   '(aug_photoz, aug_photoz_error) ⇐ _simulate_photoz self (np_exp log_redshift) ;
   aug_distmod ⇐ cosmology_distmod aug_photoz ;
   py_ret (<["distmod" := PyFloat aug_distmod]>
             (<["host_photoz_error" := PyFloat aug_photoz_error]>
                (<["host_photoz" := PyFloat aug_photoz]>
                   (<["host_specz" := PyFloat (np_exp log_redshift)]>
                      (<["redshift" := PyFloat (np_exp log_redshift)]>
                         augmented_metadata)))))).
Proof.
  intros Ht Hz. unfold _augment_redshift, dict_getitem. rewrite Hgalactic.
  rewrite py_bind_ret_l, Ht, Hz, py_bind_ret_l. reflexivity.
Qed.

End AugmentRedshift.

Lemma np_random_rand_inv (r : exn + R) :
  outcome np_random_rand r -> exists u : R, unit_interval u /\ r = inr u.
Proof.
  unfold np_random_rand. intros H. inv_bind H as [u Hu] Hc.
  - apply outcome_call_inv in H as [? H]. discriminate.
  - apply outcome_ret_inv in H. eauto.
Qed.

(** What [_augment_metadata] does after [_augment_redshift]: it sets [ddf]
    and smears [mwebv], and leaves the other fields alone. *)
Lemma augment_metadata_returns_inv (self : PlasticcAugmentor)
    (reference_object : AstronomicalObject) (result : gmap string pyval) :
  returns (_augment_metadata self reference_object) result ->
  exists (augmented_metadata : gmap string pyval) (ddf : bool) (mwebv : npfloat),
    returns (_augment_redshift self reference_object (metadata reference_object))
            augmented_metadata /\
    result = <["mwebv" := PyFloat mwebv]> (<["ddf" := PyBool ddf]> augmented_metadata).
Proof.
  unfold returns, _augment_metadata. intros H.
  inv_bind_ok H as amd Hamd.
  inv_bind_ok H as ddf Hddf.
  inv_bind_ok H as amd' Hamd'.
  inv_bind_ok H as mwebv Hmwebv.
  inv_bind_ok H as smear Hsmear.
  inv_ret H.
  exists amd. destruct (truthy ddf).
  - inv_bind_ok Hamd' as u Hu. inv_ret Hamd'. eauto.
  - inv_ret Hamd'. eauto.
Qed.

Lemma augment_metadata_returns_wfd (self : PlasticcAugmentor)
    (reference_object : AstronomicalObject) (augmented_metadata : gmap string pyval)
    (ddf mwebv : pyval) (smear : R) :
  returns (_augment_redshift self reference_object (metadata reference_object))
          augmented_metadata ->
  metadata reference_object !! "ddf" = Some ddf -> truthy ddf = false ->
  augmented_metadata !! "mwebv" = Some mwebv ->
  returns (_augment_metadata self reference_object)
          (<["mwebv" := PyFloat (np_mul (to_float mwebv) smear)]>
             (<["ddf" := PyBool false]> augmented_metadata)).
Proof.
  intros Hamd Hddf Ht Hmwebv. unfold returns, _augment_metadata.
  apply outcome_bind with augmented_metadata; [exact Hamd |].
  apply outcome_bind with ddf.
  { unfold dict_getitem. rewrite Hddf. apply outcome_ret. }
  rewrite Ht.
  apply outcome_bind with (<["ddf" := PyBool false]> augmented_metadata);
    [apply outcome_ret |].
  apply outcome_bind with mwebv.
  { unfold dict_getitem. rewrite lookup_insert_ne by done. rewrite Hmwebv.
    apply outcome_ret. }
  apply outcome_bind with smear; [apply outcome_call | apply outcome_ret].
Qed.

(** The tail of [_augment_metadata] always returns when the reference has
    a [ddf] flag and the augmented metadata an [mwebv]. *)
Lemma augment_metadata_tail_total (reference_object : AstronomicalObject)
    (augmented_metadata : gmap string pyval) :
  is_Some (metadata reference_object !! "ddf") ->
  is_Some (augmented_metadata !! "mwebv") ->
  always_returns
    (ddf ⇐ dict_getitem (metadata reference_object) "ddf" ;
     augmented_metadata ⇐
       (if truthy ddf then
          u ⇐ np_random_rand ;
          py_ret (<["ddf" := PyBool (Rltb 0.8 u)]> augmented_metadata)
        else
          py_ret (<["ddf" := PyBool false]> augmented_metadata)) ;
     mwebv ⇐ dict_getitem augmented_metadata "mwebv" ;
     smear ⇐ np_random_normal 1 0.1 ;
     py_ret (<["mwebv" := PyFloat (np_mul (to_float mwebv) smear)]> augmented_metadata)).
Proof.
  intros Hddf Hmwebv.
  apply always_returns_bind; [now apply dict_getitem_total |].
  intros ddf _.
  assert (Htail : forall flag : bool,
    always_returns
      (mwebv ⇐ dict_getitem (<["ddf" := PyBool flag]> augmented_metadata) "mwebv" ;
       smear ⇐ np_random_normal 1 0.1 ;
       py_ret (<["mwebv" := PyFloat (np_mul (to_float mwebv) smear)]>
                 (<["ddf" := PyBool flag]> augmented_metadata)))).
  { intros flag. apply always_returns_bind.
    - apply dict_getitem_total. now rewrite lookup_insert_ne.
    - intros mwebv _. apply always_returns_bind; [apply np_random_normal_total |].
      intros smear _. apply always_returns_ret. }
  apply always_returns_bind.
  - destruct (truthy ddf); [| apply always_returns_ret].
    apply always_returns_bind; [apply np_random_rand_total |].
    intros u _. apply always_returns_ret.
  - intros amd Hamd. destruct (truthy ddf).
    + unfold returns in Hamd. inv_bind_ok Hamd as u Hu. inv_ret Hamd. apply Htail.
    + unfold returns in Hamd. inv_ret Hamd. apply Htail.
Qed.

(** C9: for a reference object whose [galactic] flag is true,
    [_augment_redshift] is one draw from the Gaussian of mean 0.5 and
    standard deviation 0.5, stored as [augment_brightness], after [redshift],
    [host_specz], [host_photoz] and [host_photoz_error] are set to 0;
    [_augment_metadata] always returns (the reference having a [ddf] flag
    and an [mwebv]), and the metadata it returns has these four fields equal
    to 0 and [augment_brightness] equal to the number drawn. *)
Theorem augment_metadata_galactic (self : PlasticcAugmentor)
    (reference_object : AstronomicalObject) (galactic : pyval) :
  metadata reference_object !! "galactic" = Some galactic ->
  truthy galactic = true ->
  (forall augmented_metadata : gmap string pyval,
      _augment_redshift self reference_object augmented_metadata ≈
      (brightness ⇐ np_random_normal 0.5 0.5 ;
       py_ret (<["augment_brightness" := PyFloat brightness]>
                 (<["host_photoz_error" := PyInt 0]>
                    (<["host_photoz" := PyInt 0]>
                       (<["host_specz" := PyInt 0]>
                          (<["redshift" := PyInt 0]> augmented_metadata))))))) /\
  (is_Some (metadata reference_object !! "ddf") ->
   is_Some (metadata reference_object !! "mwebv") ->
   always_returns (_augment_metadata self reference_object)) /\
  (forall result : gmap string pyval,
      returns (_augment_metadata self reference_object) result ->
      result !! "redshift" = Some (PyInt 0) /\
      result !! "host_specz" = Some (PyInt 0) /\
      result !! "host_photoz" = Some (PyInt 0) /\
      result !! "host_photoz_error" = Some (PyInt 0) /\
      exists brightness : R, result !! "augment_brightness" = Some (PyFloat brightness)).
Proof.
  intros Hg Ht. split; [| split].
  - intros amd. now apply augment_redshift_galactic with galactic.
  - intros Hddf Hmwebv. unfold _augment_metadata.
    apply always_returns_bind.
    + rewrite (augment_redshift_galactic _ _ _ Hg _ Ht).
      apply always_returns_bind; [apply np_random_normal_total |].
      intros brightness _. apply always_returns_ret.
    + intros amd Hamd. apply augment_metadata_tail_total; [exact Hddf |].
      unfold returns in Hamd. rewrite (augment_redshift_galactic _ _ _ Hg _ Ht) in Hamd.
      inv_bind_ok Hamd as brightness Hb. inv_ret Hamd.
      now rewrite !lookup_insert_ne.
  - intros result H.
    apply augment_metadata_returns_inv in H as (amd & ddf & mwebv & H & ->).
    unfold returns in H. rewrite (augment_redshift_galactic _ _ _ Hg _ Ht) in H.
    inv_bind_ok H as brightness Hb. inv_ret H.
    repeat split; [now simplify_map_eq .. |].
    exists brightness. now simplify_map_eq.
Qed.

Lemma augment_metadata_galactic_witness :
  (forall augmented_metadata : gmap string pyval,
      _augment_redshift sample_augmentor sample_star augmented_metadata ≈
      (brightness ⇐ np_random_normal 0.5 0.5 ;
       py_ret (<["augment_brightness" := PyFloat brightness]>
                 (<["host_photoz_error" := PyInt 0]>
                    (<["host_photoz" := PyInt 0]>
                       (<["host_specz" := PyInt 0]>
                          (<["redshift" := PyInt 0]> augmented_metadata))))))) /\
  (is_Some (metadata sample_star !! "ddf") ->
   is_Some (metadata sample_star !! "mwebv") ->
   always_returns (_augment_metadata sample_augmentor sample_star)) /\
  (forall result : gmap string pyval,
      returns (_augment_metadata sample_augmentor sample_star) result ->
      result !! "redshift" = Some (PyInt 0) /\
      result !! "host_specz" = Some (PyInt 0) /\
      result !! "host_photoz" = Some (PyInt 0) /\
      result !! "host_photoz_error" = Some (PyInt 0) /\
      exists brightness : R, result !! "augment_brightness" = Some (PyFloat brightness)).
Proof.
  apply (augment_metadata_galactic sample_augmentor sample_star (PyBool true));
    reflexivity.
Defined.

Lemma exp_le (x y : R) : x <= y -> exp x <= exp y.
Proof.
  intros [H | ->]; [left; now apply exp_increasing | right; reflexivity].
Qed.

Lemma ln_le (x y : R) : 0 < x -> x <= y -> ln x <= ln y.
Proof.
  intros Hx [H | ->]; [left; now apply ln_increasing | right; reflexivity].
Qed.

(** The log-uniform draw between two positive bounds stays between them. *)
Lemma log_uniform_range (a b : R) (r : exn + npfloat) :
  0 < a -> a <= b ->
  uniform_ok (np_log a) (np_log b) r ->
  exists v : R, r = inr (Finite v) /\ a <= exp v <= b.
Proof.
  intros Ha Hab. rewrite !np_log_pos by lra. cbn.
  intros (v & -> & Hv). exists v. split; [reflexivity |].
  assert (Hln : ln a <= ln b) by now apply ln_le.
  rewrite Rmin_left, Rmax_right in Hv by assumption.
  rewrite <- (exp_ln a), <- (exp_ln b) by lra.
  split; apply exp_le; lra.
Qed.

(** A run of the non-galactic branch, from the answers of the environment. *)
Lemma augment_redshift_extragalactic_returns (self : PlasticcAugmentor)
    (reference_object : AstronomicalObject) (augmented_metadata : gmap string pyval)
    (galactic template_redshift : pyval) (log_redshift aug_photoz aug_distmod : npfloat)
    (aug_photoz_error : R) :
  metadata reference_object !! "galactic" = Some galactic ->
  truthy galactic = false ->
  metadata reference_object !! "redshift" = Some template_redshift ->
  uniform_ok
    (np_log (np_mul 0.95 (to_float template_redshift)))
    (np_log (np_min (np_mul 5 (to_float template_redshift))
                    (np_sub (np_mul 1.5 (np_add 1 (to_float template_redshift))) 1)))
    (inr log_redshift) ->
  returns (_simulate_photoz self (np_exp log_redshift)) (aug_photoz, aug_photoz_error) ->
  returns (_augment_redshift self reference_object augmented_metadata)
    (<["distmod" := PyFloat aug_distmod]>
       (<["host_photoz_error" := PyFloat aug_photoz_error]>
          (<["host_photoz" := PyFloat aug_photoz]>
             (<["host_specz" := PyFloat (np_exp log_redshift)]>
                (<["redshift" := PyFloat (np_exp log_redshift)]> augmented_metadata))))).
Proof.
  intros Hg Ht Hz Hu Hp. unfold returns.
  rewrite (augment_redshift_extragalactic _ _ _ Hg _ _ Ht Hz). cbn zeta.
  apply outcome_bind with log_redshift; [now apply np_random_uniform_intro |].
  apply outcome_bind with (aug_photoz, aug_photoz_error); [exact Hp |].
  apply outcome_bind with aug_distmod; [apply outcome_call | apply outcome_ret].
Qed.

(** With a positive template redshift, a non-empty photo-z reference and
    the [ddf] and [mwebv] fields in place, [_augment_metadata] has a run
    that returns. *)
Lemma augment_metadata_extragalactic_may_return (self : PlasticcAugmentor)
    (photoz_reference : list photoz_row)
    (reference_object : AstronomicalObject) (galactic : pyval) (z0 : R) :
  metadata reference_object !! "galactic" = Some galactic ->
  truthy galactic = false ->
  metadata reference_object !! "redshift" = Some (PyFloat z0) ->
  0 < z0 ->
  _photoz_reference self = Some photoz_reference ->
  photoz_reference <> [] ->
  is_Some (metadata reference_object !! "ddf") ->
  is_Some (metadata reference_object !! "mwebv") ->
  exists result, returns (_augment_metadata self reference_object) result.
Proof.
  intros Hg Ht Hz Hpos Hcache Hne Hddf Hmwebv.
  destruct (simulate_photoz_may_return self photoz_reference Hcache (exp (ln (0.95 * z0))))
    as [[aug_photoz aug_photoz_error] Hp];
    [left; apply exp_pos | exact Hne |].
  pose proof (augment_redshift_extragalactic_returns self reference_object
                (metadata reference_object) galactic (PyFloat z0)
                (Finite (ln (0.95 * z0))) aug_photoz (Finite 0) aug_photoz_error
                Hg Ht Hz) as Hrun.
  cbn [to_float np_mul np_add np_sub np_neg np_min] in Hrun.
  rewrite !np_log_pos in Hrun; [| apply Rmin_glb_lt; lra | lra].
  specialize (Hrun (ex_intro _ _ (conj eq_refl (conj (Rmin_l _ _) (Rmax_l _ _)))) Hp).
  match type of Hrun with returns _ ?amd =>
    destruct (augment_metadata_tail_total reference_object amd) as (_ & _ & result & Hres);
      [exact Hddf | now rewrite !lookup_insert_ne |];
    exists result; unfold returns, _augment_metadata;
    apply outcome_bind with amd; [exact Hrun | exact Hres]
  end.
Qed.

(** C3: for every non-galactic reference object with metadata redshift
    [z0 > 0], whatever the draws, the redshift in the metadata returned by
    [_augment_metadata] lies in the closed interval from [0.95 * z0] to
    [min (5 * z0) (1.5 * (1 + z0) - 1)]; and such metadata is returned on
    some run once the photo-z reference is not empty and the reference object
    has its [ddf] and [mwebv] fields. *)
Theorem augment_metadata_redshift_range (self : PlasticcAugmentor)
    (reference_object : AstronomicalObject) (galactic : pyval) (z0 : R) :
  metadata reference_object !! "galactic" = Some galactic ->
  truthy galactic = false ->
  metadata reference_object !! "redshift" = Some (PyFloat z0) ->
  0 < z0 ->
  ((exists photoz_reference : list photoz_row,
       _photoz_reference self = Some photoz_reference /\ photoz_reference <> []) ->
   is_Some (metadata reference_object !! "ddf") ->
   is_Some (metadata reference_object !! "mwebv") ->
   exists result, returns (_augment_metadata self reference_object) result) /\
  (forall result : gmap string pyval,
      returns (_augment_metadata self reference_object) result ->
      exists v : R,
        result !! "redshift" = Some (PyFloat v) /\
        0.95 * z0 <= v <= Rmin (5 * z0) (1.5 * (1 + z0) - 1)).
Proof.
  intros Hg Ht Hz Hpos. split.
  { intros (photoz_reference & Hcache & Hne) Hddf Hmwebv.
    now apply (augment_metadata_extragalactic_may_return _ photoz_reference _ galactic z0). }
  intros result H.
  apply augment_metadata_returns_inv in H as (amd & ddf & mwebv & H & ->).
  unfold returns in H.
  rewrite (augment_redshift_extragalactic _ _ _ Hg _ _ Ht Hz) in H. cbn zeta in H.
  inv_bind_ok H as log_redshift Hu.
  apply np_random_uniform_inv in Hu. cbn [to_float np_mul np_add np_sub np_neg np_min] in Hu.
  apply log_uniform_range in Hu as (v & Hv & Hrange).
  - injection Hv as ->.
    inv_bind_ok H as [aug_photoz aug_photoz_error] Hp.
    inv_bind_ok H as aug_distmod Hd. inv_ret H.
    exists (exp v). split; [now simplify_map_eq |].
    replace (1.5 * (1 + z0) - 1) with (1.5 * (1 + z0) + - 1) by lra. exact Hrange.
  - lra.
  - apply Rmin_glb; lra.
Qed.

Lemma augment_metadata_redshift_range_witness :
  ((exists photoz_reference : list photoz_row,
       _photoz_reference sample_augmentor = Some photoz_reference /\
       photoz_reference <> []) ->
   is_Some (metadata sample_supernova !! "ddf") ->
   is_Some (metadata sample_supernova !! "mwebv") ->
   exists result, returns (_augment_metadata sample_augmentor sample_supernova) result) /\
  (forall result : gmap string pyval,
      returns (_augment_metadata sample_augmentor sample_supernova) result ->
      exists v : R,
        result !! "redshift" = Some (PyFloat v) /\
        0.95 * 1 <= v <= Rmin (5 * 1) (1.5 * (1 + 1) - 1)).
Proof.
  apply (augment_metadata_redshift_range sample_augmentor sample_supernova
           (PyBool false) 1); [reflexivity | reflexivity | reflexivity | lra].
Defined.







(** ** The cadence selector *)

Lemma py_bind_bind {A B C : Type} (m : M A) (f : A -> M B) (g : B -> M C) :
  py_bind (py_bind m f) g ≈ py_bind m (fun a => py_bind (f a) g).
Proof.
  unfold py_bind. rewrite bind_bind. apply eutt_eq_bind. intros [e | a].
  - rewrite bind_ret_l. reflexivity.
  - reflexivity.
Qed.

Lemma py_bind_ext {A B : Type} (m : M A) (f g : A -> M B) :
  (forall a, f a ≈ g a) -> py_bind m f ≈ py_bind m g.
Proof.
  intros Hfg. unfold py_bind. apply eutt_eq_bind. intros [e | a]; [reflexivity | apply Hfg].
Qed.

Lemma Int_part_IZR (n : Z) : Int_part (IZR n) = n.
Proof.
  destruct (base_Int_part (IZR n)) as [Hle Hgt].
  assert (H1 : (Int_part (IZR n) <= n)%Z) by now apply le_IZR.
  assert (H2 : (n < Int_part (IZR n) + 1)%Z).
  { apply lt_IZR. rewrite plus_IZR. lra. }
  lia.
Qed.

Lemma py_int_lower (x : R) (n : Z) : IZR n <= x -> (0 <= n)%Z -> (n <= py_int x)%Z.
Proof.
  intros Hx Hn. apply IZR_le in Hn. unfold py_int.
  replace (Rltb x 0) with false by (symmetry; apply Rltb_false; lra).
  destruct (base_Int_part x) as [_ Hgt].
  assert (H : (n < Int_part x + 1)%Z); [| lia].
  apply lt_IZR. rewrite plus_IZR. lra.
Qed.

Lemma py_int_IZR (n : Z) : (0 <= n)%Z -> py_int (IZR n) = n.
Proof.
  intros Hn. apply IZR_le in Hn. unfold py_int.
  replace (Rltb (IZR n) 0) with false by (symmetry; apply Rltb_false; lra).
  apply Int_part_IZR.
Qed.

(** C8: for augmented metadata whose [ddf] flag is false,
    [_choose_target_observation_count] is a draw of a component from the
    3-way categorical with weights [0.05; 0.4; 0.55], a draw from the
    Gaussian of that component among (95, 20), (115, 8), (138, 8), a clip
    from below at 50 and a truncation to an integer; it always returns,
    whatever the draws the count returned is at least 50, and there is no
    clip from above: every count from 50 on can be returned. *)
Theorem choose_target_observation_count_wfd (augmented_metadata : gmap string pyval)
    (ddf : pyval) :
  augmented_metadata !! "ddf" = Some ddf ->
  truthy ddf = false ->
  _choose_target_observation_count augmented_metadata ≈
    (gauss_choice ⇐ py_call (RandChoiceP 3 [0.05; 0.4; 0.55]) ;
     let '(mu, sigma) :=
       nth (fin_to_nat gauss_choice) [(95, 20); (115, 8); (138, 8)] (0, 0) in
     x ⇐ np_random_normal mu sigma ;
     py_ret (py_int (Rmax x 50))) /\
  always_returns (_choose_target_observation_count augmented_metadata) /\
  (forall count : Z,
      returns (_choose_target_observation_count augmented_metadata) count ->
      (50 <= count)%Z) /\
  (forall count : Z,
      (50 <= count)%Z ->
      returns (_choose_target_observation_count augmented_metadata) count).
Proof.
  intros Hddf Ht.
  assert (Heq : _choose_target_observation_count augmented_metadata ≈
    (gauss_choice ⇐ py_call (RandChoiceP 3 [0.05; 0.4; 0.55]) ;
     let '(mu, sigma) :=
       nth (fin_to_nat gauss_choice) [(95, 20); (115, 8); (138, 8)] (0, 0) in
     x ⇐ np_random_normal mu sigma ;
     py_ret (py_int (Rmax x 50)))).
  { unfold _choose_target_observation_count, dict_getitem. rewrite Hddf.
    rewrite py_bind_ret_l, Ht. unfold np_random_choice_p.
    rewrite py_bind_bind. apply py_bind_ext. intros gauss_choice.
    rewrite py_bind_ret_l.
    inv_fin gauss_choice; [| intros gauss_choice; inv_fin gauss_choice;
                             [| intros gauss_choice; inv_fin gauss_choice;
                                [| intros gauss_choice; inv_fin gauss_choice]]];
      cbn; rewrite py_bind_ret_l; reflexivity. }
  split; [exact Heq |]. split; [| split].
  - rewrite Heq. apply always_returns_bind; [apply always_returns_call; exact 0%fin |].
    intros gauss_choice _. destruct (nth _ _ _) as [mu sigma].
    apply always_returns_bind; [apply np_random_normal_total |].
    intros x _. apply always_returns_ret.
  - intros count H. unfold returns in H. rewrite Heq in H.
    inv_bind_ok H as gauss_choice Hc.
    destruct (nth _ _ _) as [mu sigma].
    inv_bind_ok H as x Hx. inv_ret H.
    apply py_int_lower; [apply Rmax_r | lia].
  - intros count Hcount. unfold returns. rewrite Heq.
    apply outcome_bind with 0%fin; [apply outcome_call |]. cbn.
    apply outcome_bind with (IZR count); [apply outcome_call |].
    replace (Rmax (IZR count) 50) with (IZR count).
    + rewrite py_int_IZR by lia. apply outcome_ret.
    + symmetry. apply Rmax_left. now apply IZR_le in Hcount.
Qed.

Lemma choose_target_observation_count_wfd_witness :
  _choose_target_observation_count (sample_metadata false 1) ≈
    (gauss_choice ⇐ py_call (RandChoiceP 3 [0.05; 0.4; 0.55]) ;
     let '(mu, sigma) :=
       nth (fin_to_nat gauss_choice) [(95, 20); (115, 8); (138, 8)] (0, 0) in
     x ⇐ np_random_normal mu sigma ;
     py_ret (py_int (Rmax x 50))) /\
  always_returns (_choose_target_observation_count (sample_metadata false 1)) /\
  (forall count : Z,
      returns (_choose_target_observation_count (sample_metadata false 1)) count ->
      (50 <= count)%Z) /\
  (forall count : Z,
      (50 <= count)%Z ->
      returns (_choose_target_observation_count (sample_metadata false 1)) count).
Proof.
  apply (choose_target_observation_count_wfd (sample_metadata false 1) (PyBool false));
    reflexivity.
Defined.

(** ** Observation tables: noise and detection *)

Lemma heap_get_inv (h : heap) (l : ref) (r : exn + DataFrame) :
  outcome (heap_get h l) r ->
  (exists df, h !! l = Some df /\ r = inr df) \/
  (h !! l = None /\ r = inl (DanglingReference l)).
Proof.
  unfold heap_get. destruct (h !! l) as [df |]; intros H.
  - left. exists df. apply outcome_ret_inv in H. auto.
  - right. apply outcome_raise_inv in H. auto.
Qed.

Lemma np_random_rand_v_inv (n : nat) (r : exn + list R) :
  outcome (np_random_rand_v n) r ->
  exists l : list R, length l = n /\ Forall unit_interval l /\ r = inr l.
Proof.
  unfold np_random_rand_v. intros H. inv_bind H as [l [Hlen Hl]] Hc.
  - apply outcome_call_inv in H as [? H]. discriminate.
  - apply outcome_ret_inv in H. eauto.
Qed.

Lemma np_random_rand_v_intro (n : nat) (l : list R) :
  length l = n -> Forall unit_interval l -> outcome (np_random_rand_v n) (inr l).
Proof.
  intros Hlen Hl. unfold np_random_rand_v.
  apply outcome_bind with (exist _ l (conj Hlen Hl)); [apply outcome_call | apply outcome_ret].
Qed.

Lemma length_df_set_detected (column : list bool) (df : DataFrame) :
  length column = length df -> length (df_set_detected column df) = length df.
Proof. intros H. unfold df_set_detected. rewrite length_zip_with. lia. Qed.

Lemma mapM_detected_set (column : list bool) (df : DataFrame) :
  length column = length df ->
  mapM detected (df_set_detected column df) = Some column.
Proof.
  revert column. induction df as [| r df IH]; intros [| b column] Hlen;
    try discriminate; [reflexivity |].
  cbn in *. unfold df_set_detected in IH. rewrite IH by lia. reflexivity.
Qed.

Lemma np_sum_bool_detected_count (column : list bool) (df : DataFrame) :
  length column = length df ->
  np_sum_bool column = detected_count (df_set_detected column df).
Proof.
  unfold np_sum_bool, detected_count.
  revert column. induction df as [| r df IH]; intros [| b column] Hlen;
    try discriminate; [reflexivity |].
  change (df_set_detected (b :: column) (r :: df))
    with ({| band := band r; flux := flux r; flux_error := flux_error r;
             detected := Some b |} :: df_set_detected column df).
  rewrite fmap_cons. cbn in Hlen. destruct b; cbn; [f_equal |]; apply IH; lia.
Qed.

Lemma length_detection_flags (df : DataFrame) (draws : list R) :
  length draws = length df -> length (detection_flags df draws) = length df.
Proof.
  intros H. unfold detection_flags.
  rewrite length_zip_with, length_fmap, length_zip_with, !length_fmap. lia.
Qed.

(** The runs of [_simulate_detection]: the table behind the reference it
    was given is overwritten, and that reference is handed back. *)
Lemma simulate_detection_returns (h : heap) (observations : ref)
    (augmented_metadata : gmap string pyval) (result : ref * bool * heap) :
  returns (_simulate_detection h observations augmented_metadata) result <->
  exists (df : DataFrame) (draws : list R),
    h !! observations = Some df /\
    length draws = length df /\ Forall unit_interval draws /\
    result = (observations,
              Nat.leb 2 (np_sum_bool (detection_flags df draws)),
              <[observations := df_set_detected (detection_flags df draws) df]> h).
Proof.
  unfold returns, _simulate_detection. split.
  - intros H.
    inv_bind_ok H as df Hdf.
    apply heap_get_inv in Hdf as [(df' & Hdf & Heq) | [_ Heq]]; [| discriminate].
    injection Heq as <-.
    inv_bind_ok H as draws Hdraws.
    apply np_random_rand_v_inv in Hdraws as (draws' & Hlen & Hdraws & Heq).
    injection Heq as <-.
    rewrite length_zip_with, !length_fmap, Nat.min_id in Hlen.
    fold (detection_flags df draws) in H.
    inv_bind_ok H as df2 Hdf2.
    apply heap_get_inv in Hdf2 as [(df2' & Hdf2 & Heq) | [_ Heq]]; [| discriminate].
    injection Heq as <-.
    rewrite lookup_alter_eq, Hdf in Hdf2. injection Hdf2 as <-.
    inv_bind_ok H as flags Hflags. unfold df_get_detected in Hflags.
    rewrite mapM_detected_set in Hflags by now apply length_detection_flags.
    inv_ret Hflags. inv_ret H.
    exists df, draws. repeat split; try assumption.
    f_equal. apply alter_alt_Some. exact Hdf.
  - intros (df & draws & Hdf & Hlen & Hdraws & ->).
    apply outcome_bind with df.
    { unfold heap_get. rewrite Hdf. apply outcome_ret. }
    apply outcome_bind with draws.
    { apply np_random_rand_v_intro; [| assumption].
      rewrite length_zip_with, !length_fmap. lia. }
    fold (detection_flags df draws).
    apply outcome_bind with (df_set_detected (detection_flags df draws) df).
    { unfold heap_get. rewrite lookup_alter_eq, Hdf. apply outcome_ret. }
    apply outcome_bind with (detection_flags df draws).
    { unfold df_get_detected.
      rewrite mapM_detected_set by now apply length_detection_flags.
      apply outcome_ret. }
    rewrite (alter_alt_Some _ _ _ _ Hdf). apply outcome_ret.
Qed.

Lemma np_sum_bool_le_length (column : list bool) :
  (np_sum_bool column <= length column)%nat.
Proof.
  unfold np_sum_bool. induction column as [| [|] column IH]; cbn in *; lia.
Qed.

(** [_simulate_detection] always returns on a table that is in the heap. *)
Lemma simulate_detection_total (h : gmap nat DataFrame) (observations : nat)
    (augmented_metadata : gmap string pyval) :
  is_Some (h !! observations) ->
  always_returns (_simulate_detection h observations augmented_metadata).
Proof.
  intros [df Hdf]. unfold _simulate_detection.
  apply always_returns_bind.
  { unfold heap_get. rewrite Hdf. apply always_returns_ret. }
  intros df0 Hdf0. unfold returns, heap_get in Hdf0. rewrite Hdf in Hdf0.
  apply outcome_ret_inv in Hdf0. injection Hdf0 as ->.
  apply always_returns_bind; [apply np_random_rand_v_total |].
  intros draws Hdraws.
  apply np_random_rand_v_inv in Hdraws as (draws' & Hlen & _ & Heq).
  injection Heq as <-.
  rewrite length_zip_with, !length_fmap, Nat.min_id in Hlen.
  fold (detection_flags df draws).
  apply always_returns_bind.
  { unfold heap_get. rewrite lookup_alter_eq, Hdf. apply always_returns_ret. }
  intros df1 Hdf1. unfold returns, heap_get in Hdf1.
  rewrite lookup_alter_eq, Hdf in Hdf1.
  apply outcome_ret_inv in Hdf1. injection Hdf1 as ->.
  apply always_returns_bind.
  { unfold df_get_detected.
    rewrite mapM_detected_set by now apply length_detection_flags.
    apply always_returns_ret. }
  intros flags _. apply always_returns_ret.
Qed.

(** C5: on every observation table [_simulate_detection] always returns,
    and whatever the draws, the [pass_detection] it returns is true exactly
    when at least 2 rows of the table it leaves behind are flagged as
    detected; in particular it is false for a table of fewer than 2 rows. *)
Theorem simulate_detection_pass (h : gmap nat DataFrame) (observations : nat)
    (augmented_metadata : gmap string pyval) (df : DataFrame) :
  h !! observations = Some df ->
  always_returns (_simulate_detection h observations augmented_metadata) /\
  (forall (result : nat) (pass_detection : bool) (h' : gmap nat DataFrame),
      returns (_simulate_detection h observations augmented_metadata)
              (result, pass_detection, h') ->
      exists df' : DataFrame,
        h' !! result = Some df' /\
        length df' = length df /\
        (pass_detection = true <-> (2 <= detected_count df')%nat) /\
        ((length df < 2)%nat -> pass_detection = false)).
Proof.
  intros Hdf. split; [apply simulate_detection_total; eauto |].
  intros result pass_detection h' H.
  destruct (proj1 (simulate_detection_returns _ _ _ _) H)
    as (df0 & draws & Hdf0 & Hlen & _ & Heq).
  rewrite Hdf in Hdf0. injection Hdf0 as <-.
  injection Heq as -> -> ->.
  pose proof (length_detection_flags df draws Hlen) as Hflags.
  exists (df_set_detected (detection_flags df draws) df).
  split; [apply lookup_insert_eq |].
  split; [now apply length_df_set_detected |].
  rewrite <- np_sum_bool_detected_count by exact Hflags.
  split; [apply (Nat.leb_le 2 (np_sum_bool (detection_flags df draws))) |].
  intros Hshort. apply (Nat.leb_gt 2 (np_sum_bool (detection_flags df draws))).
  pose proof (np_sum_bool_le_length (detection_flags df draws)). lia.
Qed.

Lemma simulate_detection_pass_witness :
  always_returns (_simulate_detection sample_heap 0%nat ∅) /\
  (forall (result : nat) (pass_detection : bool) (h' : gmap nat DataFrame),
      returns (_simulate_detection sample_heap 0%nat ∅) (result, pass_detection, h') ->
      exists df' : DataFrame,
        h' !! result = Some df' /\
        length df' = length [sample_row] /\
        (pass_detection = true <-> (2 <= detected_count df')%nat) /\
        ((length [sample_row] < 2)%nat -> pass_detection = false)).
Proof.
  apply (simulate_detection_pass sample_heap 0%nat ∅ [sample_row]). reflexivity.
Defined.

Lemma df_set_detected_rows (column : list bool) (df : DataFrame) :
  length column = length df ->
  Forall2 (fun r r' => band r' = band r /\ flux r' = flux r /\
                       flux_error r' = flux_error r /\ is_Some (detected r'))
          df (df_set_detected column df).
Proof.
  revert column. induction df as [| r df IH]; intros [| b column] Hlen;
    try discriminate; [constructor |].
  cbn. constructor; [cbn; eauto | apply IH; cbn in Hlen; lia].
Qed.

Lemma list_comprehension_getitem_inv {V : Type} (d : gmap string V)
    (keys : list string) (values : list V) :
  outcome (list_comprehension (fun i => dict_getitem d i) keys) (inr values) ->
  Forall2 (fun k v => d !! k = Some v) keys values.
Proof.
  revert values. induction keys as [| k keys IH]; intros values H; cbn in H.
  - inv_ret H. constructor.
  - inv_bind_ok H as v Hv.
    apply dict_getitem_inv in Hv as [(v' & Hk & Heq) | [_ Heq]]; [| discriminate].
    injection Heq as <-.
    inv_bind_ok H as vs Hvs. inv_ret H. constructor; [exact Hk | now apply IH].
Qed.

Lemma list_comprehension_getitem_intro {V : Type} (d : gmap string V)
    (keys : list string) (values : list V) :
  Forall2 (fun k v => d !! k = Some v) keys values ->
  outcome (list_comprehension (fun i => dict_getitem d i) keys) (inr values).
Proof.
  induction 1 as [| k v keys values Hk _ IH]; cbn.
  - apply outcome_ret.
  - apply outcome_bind with v.
    { unfold dict_getitem. rewrite Hk. apply outcome_ret. }
    apply outcome_bind with values; [exact IH | apply outcome_ret].
Qed.

Lemma np_random_lognormal_v_inv (mean sigma : list R) (r : exn + list R) :
  outcome (np_random_lognormal_v mean sigma) r ->
  exists l : list R, length l = length mean /\ Forall (Rlt 0) l /\ r = inr l.
Proof.
  unfold np_random_lognormal_v. intros H. inv_bind H as [l [Hlen Hl]] Hc.
  - apply outcome_call_inv in H as [? H]. discriminate.
  - apply outcome_ret_inv in H. eauto.
Qed.

Lemma np_random_lognormal_v_intro (mean sigma l : list R) :
  length l = length mean -> Forall (Rlt 0) l ->
  outcome (np_random_lognormal_v mean sigma) (inr l).
Proof.
  intros Hlen Hl. unfold np_random_lognormal_v.
  apply outcome_bind with (exist _ l (conj Hlen Hl)); [apply outcome_call | apply outcome_ret].
Qed.

Lemma np_random_normal_v_inv (loc : R) (scale : list R) (r : exn + list R) :
  outcome (np_random_normal_v loc scale) r ->
  exists l : list R, length l = length scale /\ r = inr l.
Proof.
  unfold np_random_normal_v. intros H. inv_bind H as [l Hlen] Hc.
  - apply outcome_call_inv in H as [? H]. discriminate.
  - apply outcome_ret_inv in H. eauto.
Qed.

Lemma np_random_normal_v_intro (loc : R) (scale l : list R) :
  length l = length scale -> outcome (np_random_normal_v loc scale) (inr l).
Proof.
  intros Hlen. unfold np_random_normal_v.
  apply outcome_bind with (exist _ l Hlen); [apply outcome_call | apply outcome_ret].
Qed.

(** The runs of [_simulate_light_curve_uncertainties]: a fresh object holds
    the result, the heap is otherwise as it was. *)
Lemma simulate_uncertainties_returns_inv (h : gmap nat DataFrame) (observations : nat)
    (augmented_metadata : gmap string pyval) (result : nat) (h' : gmap nat DataFrame) :
  returns (_simulate_light_curve_uncertainties h observations augmented_metadata)
          (result, h') ->
  exists df : DataFrame,
    h !! observations = Some df /\ result = fresh (dom h) /\
    ((df = [] /\ h' = <[result := df]> h) \/
     (df <> [] /\
      exists add_stds noise_add : list R,
        length add_stds = length df /\ Forall (Rlt 0) add_stds /\
        length noise_add = length df /\
        h' = <[result := noised df add_stds noise_add]> h)).
Proof.
  unfold returns, _simulate_light_curve_uncertainties, df_copy. intros H.
  inv_bind_ok H as [l h1] Hcopy.
  inv_bind_ok Hcopy as df Hdf.
  apply heap_get_inv in Hdf as [(df' & Hdf & Heq) | [_ Heq]]; [| discriminate].
  injection Heq as <-. inv_ret Hcopy.
  inv_bind_ok H as df2 Hdf2.
  apply heap_get_inv in Hdf2 as [(df2' & Hdf2 & Heq) | [_ Heq]]; [| discriminate].
  injection Heq as <-. rewrite lookup_insert_eq in Hdf2. injection Hdf2 as <-.
  exists df. split; [exact Hdf |].
  destruct (Nat.eqb_spec (length df) 0) as [Hlen | Hlen].
  - inv_ret H. split; [reflexivity |].
    left. split; [now apply length_zero_iff_nil | reflexivity].
  - assert (Hne : df <> []) by now intros ->.
    inv_bind_ok H as ddf Hddf.
    inv_bind_ok H as lognormal_parameters Hparams.
    apply list_comprehension_getitem_inv, Forall2_length in Hparams.
    rewrite length_fmap in Hparams.
    inv_bind_ok H as add_stds Hstds.
    apply np_random_lognormal_v_inv in Hstds as (add_stds' & Hlstds & Hpos & Heq).
    injection Heq as <-. rewrite length_fmap in Hlstds.
    inv_bind_ok H as noise_add Hnoise.
    apply np_random_normal_v_inv in Hnoise as (noise_add' & Hlnoise & Heq).
    injection Heq as <-.
    inv_ret H. split; [reflexivity |]. right. split; [exact Hne |].
    exists add_stds, noise_add.
    repeat split; [lia | assumption | lia |].
    rewrite !alter_insert_eq. reflexivity.
Qed.

Lemma simulate_uncertainties_returns_empty (h : gmap nat DataFrame) (observations : nat)
    (augmented_metadata : gmap string pyval) :
  h !! observations = Some [] ->
  returns (_simulate_light_curve_uncertainties h observations augmented_metadata)
          (fresh (dom h), <[fresh (dom h) := []]> h).
Proof.
  intros Hdf. unfold returns, _simulate_light_curve_uncertainties, df_copy.
  apply outcome_bind with (fresh (dom h), <[fresh (dom h) := []]> h).
  { apply outcome_bind with []; [| apply outcome_ret].
    unfold heap_get. rewrite Hdf. apply outcome_ret. }
  apply outcome_bind with [].
  { unfold heap_get. rewrite lookup_insert_eq. apply outcome_ret. }
  apply outcome_ret.
Qed.

Lemma simulate_uncertainties_returns_noised (h : gmap nat DataFrame) (observations : nat)
    (augmented_metadata : gmap string pyval) (df : DataFrame) (ddf : pyval)
    (lognormal_parameters : list (R * R)) (add_stds noise_add : list R) :
  h !! observations = Some df -> df <> [] ->
  augmented_metadata !! "ddf" = Some ddf ->
  Forall2 (fun k v =>
             (if truthy ddf then band_noises_ddf else band_noises_wfd) !! k = Some v)
          (band <$> df) lognormal_parameters ->
  length add_stds = length df -> Forall (Rlt 0) add_stds ->
  length noise_add = length df ->
  returns (_simulate_light_curve_uncertainties h observations augmented_metadata)
          (fresh (dom h), <[fresh (dom h) := noised df add_stds noise_add]> h).
Proof.
  intros Hdf Hne Hddf Hparams Hlstds Hpos Hlnoise.
  unfold returns, _simulate_light_curve_uncertainties, df_copy.
  apply outcome_bind with (fresh (dom h), <[fresh (dom h) := df]> h).
  { apply outcome_bind with df; [| apply outcome_ret].
    unfold heap_get. rewrite Hdf. apply outcome_ret. }
  apply outcome_bind with df.
  { unfold heap_get. rewrite lookup_insert_eq. apply outcome_ret. }
  destruct (Nat.eqb_spec (length df) 0) as [Hlen | Hlen].
  { now apply length_zero_iff_nil in Hlen. }
  apply outcome_bind with ddf.
  { unfold dict_getitem. rewrite Hddf. apply outcome_ret. }
  apply outcome_bind with lognormal_parameters.
  { now apply list_comprehension_getitem_intro. }
  pose proof Hparams as Hlparams. apply Forall2_length in Hlparams.
  rewrite length_fmap in Hlparams.
  apply outcome_bind with add_stds.
  { apply np_random_lognormal_v_intro; [rewrite length_fmap; lia | assumption]. }
  apply outcome_bind with noise_add.
  { apply np_random_normal_v_intro. lia. }
  rewrite !alter_insert_eq. apply outcome_ret.
Qed.

(** The copy made by the noise injector is a new object. *)
Lemma simulate_uncertainties_fresh (h : gmap nat DataFrame) (observations : nat)
    (augmented_metadata : gmap string pyval) (result : nat) (h' : gmap nat DataFrame) :
  returns (_simulate_light_curve_uncertainties h observations augmented_metadata)
          (result, h') ->
  result <> observations /\ h !! result = None /\
  exists df' : DataFrame, h' = <[result := df']> h.
Proof.
  intros H. apply simulate_uncertainties_returns_inv in H as (df & Hdf & -> & H).
  assert (Hfresh : h !! fresh (dom h) = None).
  { apply not_elem_of_dom, is_fresh. }
  split; [intros Heq; rewrite Heq in Hfresh; congruence |].
  split; [exact Hfresh |].
  destruct H as [[_ ->] | (_ & add_stds & noise_add & _ & _ & _ & ->)]; eauto.
Qed.

Lemma known_band_noises (b : string) :
  known_band b ->
  is_Some (band_noises_ddf !! b) /\ is_Some (band_noises_wfd !! b).
Proof.
  unfold known_band. rewrite <- elem_of_dom.
  unfold band_central_wavelengths. rewrite dom_list_to_map_L. cbn.
  set_unfold. intros H.
  repeat (destruct H as [-> | H]; [split; eexists; reflexivity |]).
  destruct H.
Qed.

(** The noise injector always returns on an empty table, and on a table
    of the instrument's bands when the metadata has a [ddf] flag. *)
Lemma simulate_uncertainties_total (h : gmap nat DataFrame) (observations : nat)
    (augmented_metadata : gmap string pyval) (df : DataFrame) :
  h !! observations = Some df ->
  df = [] \/
  (is_Some (augmented_metadata !! "ddf") /\ Forall (fun r => known_band (band r)) df) ->
  always_returns (_simulate_light_curve_uncertainties h observations augmented_metadata).
Proof.
  intros Hdf Hwf. unfold _simulate_light_curve_uncertainties, df_copy.
  apply always_returns_bind.
  { apply always_returns_bind.
    - unfold heap_get. rewrite Hdf. apply always_returns_ret.
    - intros df0 _. apply always_returns_ret. }
  intros [copy h1] Hcopy. unfold returns in Hcopy.
  inv_bind_ok Hcopy as df0 Hdf0. unfold heap_get in Hdf0. rewrite Hdf in Hdf0.
  apply outcome_ret_inv in Hdf0. injection Hdf0 as ->.
  apply outcome_ret_inv in Hcopy. injection Hcopy as -> ->.
  apply always_returns_bind.
  { unfold heap_get. rewrite lookup_insert_eq. apply always_returns_ret. }
  intros df1 Hdf1. unfold returns, heap_get in Hdf1. rewrite lookup_insert_eq in Hdf1.
  apply outcome_ret_inv in Hdf1. injection Hdf1 as ->.
  destruct (Nat.eqb_spec (length df) 0) as [Hlen | Hlen]; [apply always_returns_ret |].
  destruct Hwf as [-> | [Hddf Hbands]]; [done |].
  apply always_returns_bind; [now apply dict_getitem_total |].
  intros ddf _. apply always_returns_bind.
  { apply list_comprehension_getitem_total. apply Forall_fmap.
    eapply Forall_impl; [| exact Hbands]. cbn. intros r Hr.
    apply known_band_noises in Hr as [Hd Hw]. now destruct (truthy ddf). }
  intros lognormal_parameters _.
  apply always_returns_bind; [apply np_random_lognormal_v_total |].
  intros add_stds _.
  apply always_returns_bind; [apply np_random_normal_v_total |].
  intros noise_add _. apply always_returns_ret.
Qed.

(** C6: on every observation table of the instrument's bands
    [_simulate_light_curve_uncertainties] always returns; whatever the draws
    it returns a reference to a new object and leaves every object of the
    caller's heap, the table it was given among them, as it was; and for an
    empty table the table it returns is empty as well. *)
Theorem simulate_uncertainties_pure (h : gmap nat DataFrame) (observations : nat)
    (augmented_metadata : gmap string pyval) (df : DataFrame) :
  h !! observations = Some df ->
  (df = [] \/
   (is_Some (augmented_metadata !! "ddf") /\ Forall (fun r => known_band (band r)) df) ->
   always_returns
     (_simulate_light_curve_uncertainties h observations augmented_metadata)) /\
  (forall (result : nat) (h' : gmap nat DataFrame),
      returns (_simulate_light_curve_uncertainties h observations augmented_metadata)
              (result, h') ->
      result <> observations /\
      h !! result = None /\
      is_Some (h' !! result) /\
      h' !! observations = Some df /\
      (forall l : nat, l <> result -> h' !! l = h !! l) /\
      (df = [] -> h' !! result = Some [])).
Proof.
  intros Hdf. split; [now apply simulate_uncertainties_total |].
  intros result h' H.
  pose proof (simulate_uncertainties_fresh _ _ _ _ _ H) as (Hne & Hnew & df' & Hh').
  split; [exact Hne |]. split; [exact Hnew |].
  split; [subst h'; rewrite lookup_insert_eq; eauto |].
  split; [subst h'; now rewrite lookup_insert_ne |].
  split; [intros l Hl; subst h'; now rewrite lookup_insert_ne |].
  intros ->. clear df' Hh'.
  apply simulate_uncertainties_returns_inv in H as (df & Hdf0 & -> & H).
  rewrite Hdf in Hdf0. injection Hdf0 as <-.
  destruct H as [[_ ->] | [Hne' _]]; [apply lookup_insert_eq | done].
Qed.

Lemma simulate_uncertainties_pure_witness :
  ((@nil row) = [] \/
   (is_Some ((∅ : gmap string pyval) !! "ddf") /\
    Forall (fun r => known_band (band r)) (@nil row)) ->
   always_returns (_simulate_light_curve_uncertainties sample_empty_heap 0%nat ∅)) /\
  (forall (result : nat) (h' : gmap nat DataFrame),
      returns (_simulate_light_curve_uncertainties sample_empty_heap 0%nat ∅)
              (result, h') ->
      result <> 0%nat /\
      sample_empty_heap !! result = None /\
      is_Some (h' !! result) /\
      h' !! 0%nat = Some [] /\
      (forall l : nat, l <> result -> h' !! l = sample_empty_heap !! l) /\
      ((@nil row) = [] -> h' !! result = Some [])).
Proof.
  apply (simulate_uncertainties_pure sample_empty_heap 0%nat ∅ []). reflexivity.
Defined.

Lemma quadrature_ge (error amplitude : R) :
  error <= sqrt (error ^ 2 + amplitude ^ 2).
Proof.
  destruct (Rle_dec 0 error) as [Hpos | Hneg].
  - rewrite <- (sqrt_pow2 error) at 1 by exact Hpos.
    apply sqrt_le_1_alt. pose proof (pow2_ge_0 amplitude). lra.
  - pose proof (sqrt_pos (error ^ 2 + amplitude ^ 2)). lra.
Qed.

Lemma noised_rows (df : DataFrame) (add_stds noise_add : list R) :
  length add_stds = length df -> length noise_add = length df ->
  Forall2 (fun r r' => flux_error r <= flux_error r') df (noised df add_stds noise_add) /\
  flux_error <$> noised df add_stds noise_add =
    zip_with quadrature (flux_error <$> df) add_stds.
Proof.
  unfold noised. revert add_stds noise_add.
  induction df as [| r df IH]; intros [| s add_stds] [| x noise_add] Hs Hx;
    try discriminate; [split; [constructor | reflexivity] |].
  cbn in Hs, Hx. destruct (IH add_stds noise_add) as [IH1 IH2]; [lia | lia |].
  split.
  - cbn. constructor; [cbn; apply quadrature_ge | exact IH1].
  - cbn. f_equal. exact IH2.
Qed.

(** C7: on a non-empty table of the instrument's bands the noise injector
    always returns, and whatever the draws, the [flux_error] of each row of
    the table it returns is the quadrature sum of that row's [flux_error] in
    the input and of a noise amplitude, and is at least that row's
    [flux_error] in the input. *)
Theorem simulate_uncertainties_flux_error (h : gmap nat DataFrame) (observations : nat)
    (augmented_metadata : gmap string pyval) (df : DataFrame) :
  h !! observations = Some df -> df <> [] ->
  (is_Some (augmented_metadata !! "ddf") ->
   Forall (fun r => known_band (band r)) df ->
   always_returns
     (_simulate_light_curve_uncertainties h observations augmented_metadata)) /\
  (forall (result : nat) (h' : gmap nat DataFrame),
      returns (_simulate_light_curve_uncertainties h observations augmented_metadata)
              (result, h') ->
      exists (df' : DataFrame) (add_stds : list R),
        h' !! result = Some df' /\
        length add_stds = length df /\ Forall (Rlt 0) add_stds /\
        flux_error <$> df' = zip_with quadrature (flux_error <$> df) add_stds /\
        Forall2 (fun r r' => flux_error r <= flux_error r') df df').
Proof.
  intros Hdf Hne. split.
  { intros Hddf Hbands. apply (simulate_uncertainties_total _ _ _ df); auto. }
  intros result h' H.
  apply simulate_uncertainties_returns_inv in H as (df0 & Hdf0 & -> & H).
  rewrite Hdf in Hdf0. injection Hdf0 as <-.
  destruct H as [[Hempty _] | (_ & add_stds & noise_add & Hs & Hpos & Hx & ->)]; [done |].
  destruct (noised_rows df add_stds noise_add Hs Hx) as [Hle Hquad].
  exists (noised df add_stds noise_add), add_stds.
  split; [apply lookup_insert_eq |]. auto.
Qed.

Lemma simulate_uncertainties_flux_error_witness :
  (is_Some (sample_metadata false 1 !! "ddf") ->
   Forall (fun r => known_band (band r)) [sample_row] ->
   always_returns
     (_simulate_light_curve_uncertainties sample_heap 0%nat (sample_metadata false 1))) /\
  (forall (result : nat) (h' : gmap nat DataFrame),
      returns (_simulate_light_curve_uncertainties sample_heap 0%nat
                 (sample_metadata false 1))
              (result, h') ->
      exists (df' : DataFrame) (add_stds : list R),
        h' !! result = Some df' /\
        length add_stds = length [sample_row] /\ Forall (Rlt 0) add_stds /\
        flux_error <$> df' = zip_with quadrature (flux_error <$> [sample_row]) add_stds /\
        Forall2 (fun r r' => flux_error r <= flux_error r') [sample_row] df').
Proof.
  apply (simulate_uncertainties_flux_error sample_heap 0%nat (sample_metadata false 1)
           [sample_row]); [reflexivity | discriminate].
Defined.

(** C10: [_simulate_detection] makes no copy.  On every observation table
    it always returns, and whatever the draws, the reference it returns is
    the one it was given, no object is added to the heap, and the table
    behind that reference has been overwritten: every row now carries a
    [detected] flag, its other columns are as before.  The noise injector,
    by contrast, returns a reference that is not the one it was given, and
    leaves the table it was given as it was. *)
Theorem simulate_detection_in_place (h : gmap nat DataFrame) (observations : nat)
    (augmented_metadata : gmap string pyval) (df : DataFrame) :
  h !! observations = Some df ->
  always_returns (_simulate_detection h observations augmented_metadata) /\
  (forall (result : nat) (pass_detection : bool) (h' : gmap nat DataFrame),
      returns (_simulate_detection h observations augmented_metadata)
              (result, pass_detection, h') ->
      result = observations /\
      dom h' = dom h /\
      (forall l : nat, l <> observations -> h' !! l = h !! l) /\
      exists df' : DataFrame,
        h' !! observations = Some df' /\
        Forall2 (fun r r' => band r' = band r /\ flux r' = flux r /\
                             flux_error r' = flux_error r /\ is_Some (detected r'))
                df df') /\
  (forall (copy : nat) (h2 : gmap nat DataFrame),
      returns (_simulate_light_curve_uncertainties h observations augmented_metadata)
              (copy, h2) ->
      copy <> observations /\ h2 !! observations = Some df).
Proof.
  intros Hdf. split; [apply simulate_detection_total; eauto |]. split.
  - intros result pass_detection h' H.
    destruct (proj1 (simulate_detection_returns _ _ _ _) H)
      as (df0 & draws & Hdf0 & Hlen & _ & Heq).
    rewrite Hdf in Hdf0. injection Hdf0 as <-.
    injection Heq as -> -> ->.
    split; [reflexivity |]. split.
    { rewrite dom_insert_L. apply elem_of_dom_2 in Hdf.
      apply leibniz_equiv. apply subseteq_union_1. now apply singleton_subseteq_l. }
    split.
    { intros l Hl. now rewrite lookup_insert_ne. }
    exists (df_set_detected (detection_flags df draws) df).
    split; [apply lookup_insert_eq |].
    apply df_set_detected_rows. now apply length_detection_flags.
  - intros copy h2 H2.
    apply simulate_uncertainties_fresh in H2 as (Hne & _ & df' & ->).
    split; [exact Hne |]. now rewrite lookup_insert_ne.
Qed.

Lemma simulate_detection_in_place_witness :
  always_returns (_simulate_detection sample_heap 0%nat ∅) /\
  (forall (result : nat) (pass_detection : bool) (h' : gmap nat DataFrame),
      returns (_simulate_detection sample_heap 0%nat ∅) (result, pass_detection, h') ->
      result = 0%nat /\
      dom h' = dom sample_heap /\
      (forall l : nat, l <> 0%nat -> h' !! l = sample_heap !! l) /\
      exists df' : DataFrame,
        h' !! 0%nat = Some df' /\
        Forall2 (fun r r' => band r' = band r /\ flux r' = flux r /\
                             flux_error r' = flux_error r /\ is_Some (detected r'))
                [sample_row] df') /\
  (forall (copy : nat) (h2 : gmap nat DataFrame),
      returns (_simulate_light_curve_uncertainties sample_heap 0%nat ∅) (copy, h2) ->
      copy <> 0%nat /\ h2 !! 0%nat = Some [sample_row]).
Proof.
  apply (simulate_detection_in_place sample_heap 0%nat ∅ [sample_row]). reflexivity.
Defined.

(** * Further properties *)

(** ** The photo-z reference cache *)

Lemma load_test_dataset_returns (self self' : PlasticcAugmentor) (test_dataset : Dataset) :
  returns (_load_test_dataset self) (self', test_dataset) ->
  _test_dataset self' = Some test_dataset /\
  _photoz_reference self' = _photoz_reference self /\
  (forall cached, _test_dataset self = Some cached -> test_dataset = cached /\ self' = self).
Proof.
  unfold returns, _load_test_dataset. destruct (_test_dataset self) as [cached |] eqn:Hds.
  - intros H. apply outcome_ret_inv in H. injection H as -> ->.
    split; [exact Hds |]. split; [reflexivity |]. now intros ? [= <-].
  - intros H. inv_bind_ok H as ds Hcall. apply outcome_ret_inv in H.
    injection H as -> ->. repeat split; discriminate.
Qed.

(** X1: whatever state [self] is in, after [_load_photoz_reference] has
    returned the cache holds the table returned, and a further call is the
    plain return of that table with [self] as it is: nothing is loaded a
    second time.  A call on a filled cache changes nothing. *)
Theorem load_photoz_reference_idempotent (self self' : PlasticcAugmentor)
    (photoz_reference : list photoz_row) :
  returns (_load_photoz_reference self) (self', photoz_reference) ->
  _photoz_reference self' = Some photoz_reference /\
  _load_photoz_reference self' = py_ret (self', photoz_reference) /\
  (forall cached, _photoz_reference self = Some cached ->
                  self' = self /\ photoz_reference = cached).
Proof.
  unfold returns. intros H.
  assert (Hfilled : _photoz_reference self' = Some photoz_reference /\
                    (forall cached, _photoz_reference self = Some cached ->
                                    self' = self /\ photoz_reference = cached)).
  { unfold _load_photoz_reference in H.
    destruct (_photoz_reference self) as [cached |] eqn:Hcache.
    - apply outcome_ret_inv in H. injection H as -> ->.
      split; [exact Hcache | now intros ? [= <-]].
    - inv_bind_ok H as [self1 test_dataset] Hds. apply outcome_ret_inv in H.
      injection H as -> ->. split; [reflexivity | discriminate]. }
  destruct Hfilled as [Hfilled Hsame]. split; [exact Hfilled |]. split; [| exact Hsame].
  unfold _load_photoz_reference. now rewrite Hfilled.
Qed.

Lemma load_photoz_reference_idempotent_witness :
  _photoz_reference sample_augmentor = Some [(1, 2, 0.1)] /\
  _load_photoz_reference sample_augmentor = py_ret (sample_augmentor, [(1, 2, 0.1)]) /\
  (forall cached, _photoz_reference sample_augmentor = Some cached ->
                  sample_augmentor = sample_augmentor /\ [(1, 2, 0.1)] = cached).
Proof.
  apply (load_photoz_reference_idempotent sample_augmentor sample_augmentor [(1, 2, 0.1)]).
  apply outcome_ret.
Defined.

Lemma photoz_cut_positive (test_dataset : Dataset) :
  Forall (fun r => 0 < fst (fst r)) (photoz_cut test_dataset).
Proof.
  unfold photoz_cut. apply Forall_fmap. apply Forall_forall. intros r Hr.
  apply filter_In in Hr as [_ Hr]. cbn. now apply Rltb_true.
Qed.

(** X2: on an empty cache [_load_photoz_reference] returns the rows of the
    test dataset whose [host_specz] is positive, in the order of the dataset
    and with their three columns; the dataset is the cached one when there
    is one, and it is cached afterwards. *)
Theorem load_photoz_reference_cut (self self' : PlasticcAugmentor)
    (photoz_reference : list photoz_row) :
  _photoz_reference self = None ->
  returns (_load_photoz_reference self) (self', photoz_reference) ->
  exists test_dataset : Dataset,
    _test_dataset self' = Some test_dataset /\
    (forall cached, _test_dataset self = Some cached -> test_dataset = cached) /\
    photoz_reference = photoz_cut test_dataset /\
    Forall (fun r => 0 < fst (fst r)) photoz_reference /\
    (length photoz_reference <= length (dataset_metadata test_dataset))%nat.
Proof.
  unfold returns, _load_photoz_reference. intros Hcache H. rewrite Hcache in H.
  inv_bind_ok H as [self1 test_dataset] Hds.
  apply load_test_dataset_returns in Hds as (Hds & _ & Hcached).
  apply outcome_ret_inv in H. injection H as -> ->.
  exists test_dataset. split; [exact Hds |].
  split; [intros cached Hc; now apply Hcached in Hc as [-> _] |].
  split; [reflexivity |]. split; [apply photoz_cut_positive |].
  fold (photoz_cut test_dataset). unfold photoz_cut.
  rewrite length_fmap. apply filter_length_le.
Qed.

Lemma load_photoz_reference_uncached (test_dataset : Dataset) :
  returns (_load_photoz_reference {| _test_dataset := None; _photoz_reference := None |})
          ({| _test_dataset := Some test_dataset;
              _photoz_reference := Some (photoz_cut test_dataset) |},
           photoz_cut test_dataset).
Proof.
  unfold returns, _load_photoz_reference, _load_test_dataset. cbn.
  apply outcome_bind with ({| _test_dataset := Some test_dataset;
                              _photoz_reference := None |}, test_dataset).
  - apply outcome_bind with test_dataset; [apply outcome_trigger | apply outcome_ret].
  - apply outcome_ret.
Qed.

Lemma load_photoz_reference_cut_witness :
  exists test_dataset : Dataset,
    Some sample_dataset = Some test_dataset /\
    (forall cached, _test_dataset sample_unloaded = Some cached -> test_dataset = cached) /\
    photoz_cut sample_dataset = photoz_cut test_dataset /\
    Forall (fun r => 0 < fst (fst r)) (photoz_cut sample_dataset) /\
    (length (photoz_cut sample_dataset) <= length (dataset_metadata test_dataset))%nat.
Proof.
  apply (load_photoz_reference_cut sample_unloaded
           {| _test_dataset := Some sample_dataset;
              _photoz_reference := Some (photoz_cut sample_dataset) |}
           (photoz_cut sample_dataset));
    [reflexivity | apply load_photoz_reference_uncached].
Defined.

(** X3: [__init__] is the constructor of the base class followed by one
    load of the test dataset, metadata only: a failure of either is handed
    on to the caller as it is, and otherwise the augmentor returned has that
    dataset and the photo-z reference cached, the reference being the cut of
    the dataset, whose rows all have a positive spec-z.  Every branch of the
    call comes to an end. *)
Theorem init_loads_photoz_reference :
  PlasticcAugmentor__init__ ≈
    ('tt ⇐ Augmentor__init__ ;
     test_dataset ⇐ Dataset_load "plasticc_test" true ;
     py_ret {| _test_dataset := Some test_dataset;
               _photoz_reference := Some (photoz_cut test_dataset) |}) /\
  all_finite PlasticcAugmentor__init__ /\
  (forall e : exn,
      raises (Dataset_load "plasticc_test" true) e -> raises PlasticcAugmentor__init__ e) /\
  (forall self : PlasticcAugmentor,
      returns PlasticcAugmentor__init__ self ->
      exists test_dataset : Dataset,
        returns (Dataset_load "plasticc_test" true) test_dataset /\
        _test_dataset self = Some test_dataset /\
        _photoz_reference self = Some (photoz_cut test_dataset) /\
        Forall (fun r => 0 < fst (fst r)) (photoz_cut test_dataset)).
Proof.
  assert (Heq : PlasticcAugmentor__init__ ≈
    ('tt ⇐ Augmentor__init__ ;
     test_dataset ⇐ Dataset_load "plasticc_test" true ;
     py_ret {| _test_dataset := Some test_dataset;
               _photoz_reference := Some (photoz_cut test_dataset) |})).
  { unfold PlasticcAugmentor__init__, _load_photoz_reference, _load_test_dataset. cbn.
    apply py_bind_ext. intros [].
    etransitivity; [apply py_bind_bind |].
    etransitivity; [apply py_bind_bind |].
    apply py_bind_ext. intros test_dataset.
    rewrite py_bind_ret_l. cbn. rewrite py_bind_ret_l. reflexivity. }
  split; [exact Heq |]. split; [| split].
  - rewrite Heq. unfold py_bind.
    apply all_finite_bind_weak; [apply all_finite_trigger |].
    intros [e | []]; [apply all_finite_Ret |].
    apply all_finite_bind_weak; [apply all_finite_trigger |].
    intros [e | test_dataset]; apply all_finite_Ret.
  - intros e He. unfold raises. rewrite Heq.
    apply outcome_bind with tt; [apply outcome_trigger |].
    apply outcome_bind_raise. exact He.
  - intros self H. unfold returns in H. rewrite Heq in H.
    inv_bind_ok H as [] Hinit. inv_bind_ok H as test_dataset Hload.
    apply outcome_ret_inv in H. injection H as ->.
    exists test_dataset. split; [exact Hload |].
    split; [reflexivity |]. split; [reflexivity | apply photoz_cut_positive].
Qed.

(** ** The photo-z simulator, at its edges *)

Lemma sign_cases (sign : Z) : sign ∈ [(-1)%Z; 1%Z] -> IZR sign = -1 \/ IZR sign = 1.
Proof.
  intros Hs. set_unfold. destruct Hs as [-> | [-> | []]]; [left | right]; reflexivity.
Qed.

Lemma simulate_photoz_empty_raises (self : PlasticcAugmentor) (redshift : npfloat) :
  _photoz_reference self = Some [] ->
  raises (_simulate_photoz self redshift) (ValueError "a must be greater than 0").
Proof.
  intros Hcache. unfold raises. rewrite (simulate_photoz_cached _ _ Hcache).
  apply outcome_while_true_raise. cbn. apply outcome_bind_raise, outcome_raise.
Qed.

(** X4: with an empty photo-z reference [_simulate_photoz] has one outcome,
    whatever the redshift: the [ValueError] of [np.random.choice(0)], raised
    on the first pass.  It neither returns nor loops. *)
Theorem simulate_photoz_empty_reference (self : PlasticcAugmentor) (redshift : npfloat)
    (r : exn + npfloat * R) :
  _photoz_reference self = Some [] ->
  (outcome (_simulate_photoz self redshift) r <->
   r = inl (ValueError "a must be greater than 0")) /\
  all_finite (_simulate_photoz self redshift).
Proof.
  intros Hcache. split; [split |].
  - intros H. rewrite (simulate_photoz_cached _ _ Hcache) in H.
    apply (outcome_while_true_inv _
             (fun r => r = inl (ValueError "a must be greater than 0"))) in H;
      [exact H | |].
    + intros e He. now apply simulate_photoz_body_raise in He as [_ ->].
    + intros [p err] Hb.
      apply simulate_photoz_body_break in Hb as (i & ref & _ & _ & Hi & _). done.
  - intros ->. now apply simulate_photoz_empty_raises.
  - rewrite (simulate_photoz_cached _ _ Hcache). unfold while_true.
    rewrite unfold_iter. unfold _simulate_photoz_body. cbn [length np_random_choice].
    unfold py_bind, py_raise. rewrite !bind_ret_l. cbn. apply all_finite_Ret.
Qed.

Lemma simulate_photoz_empty_reference_witness :
  (outcome (_simulate_photoz {| _test_dataset := None; _photoz_reference := Some [] |} 0.5)
           (inl (ValueError "a must be greater than 0")) <->
   @inl exn (npfloat * R) (ValueError "a must be greater than 0")
     = inl (ValueError "a must be greater than 0")) /\
  all_finite (_simulate_photoz {| _test_dataset := None; _photoz_reference := Some [] |} 0.5).
Proof.
  apply (simulate_photoz_empty_reference
           {| _test_dataset := None; _photoz_reference := Some [] |} 0.5).
  reflexivity.
Defined.

(** X5: a photo-z returned for a true redshift [z] differs from [z] by the
    residual of a row of the reference, in one direction or the other, and
    the error returned is the error of that same row times the noise
    factor. *)
Theorem simulate_photoz_residual (self : PlasticcAugmentor)
    (photoz_reference : list photoz_row) (z : R) (photoz : npfloat) (photoz_err : R) :
  _photoz_reference self = Some photoz_reference ->
  returns (_simulate_photoz self z) (photoz, photoz_err) ->
  exists (ref_specz ref_photoz ref_photoz_err v noise : R),
    (ref_specz, ref_photoz, ref_photoz_err) ∈ photoz_reference /\
    photoz = Finite v /\
    (v - z = ref_photoz - ref_specz \/ v - z = ref_specz - ref_photoz) /\
    photoz_err = ref_photoz_err * noise.
Proof.
  intros Hcache H. apply (simulate_photoz_returns _ _ Hcache) in H
    as (i & [[ref_specz ref_photoz] ref_photoz_err] & sign & noise & Hi & Hs & -> & _ & ->).
  exists ref_specz, ref_photoz, ref_photoz_err,
    (z + (ref_photoz - ref_specz) * IZR sign), noise.
  split; [apply list_elem_of_lookup; eauto |]. split; [reflexivity |].
  split; [| reflexivity].
  apply sign_cases in Hs as [-> | ->]; [right | left]; lra.
Qed.

Lemma simulate_photoz_residual_witness :
  exists (ref_specz ref_photoz ref_photoz_err v noise : R),
    (ref_specz, ref_photoz, ref_photoz_err) ∈ [(1, 2, 0.1)] /\
    candidate_photoz 0.5 (1, 2, 0.1) 1 = Finite v /\
    (v - 0.5 = ref_photoz - ref_specz \/ v - 0.5 = ref_specz - ref_photoz) /\
    0.1 * 1 = ref_photoz_err * noise.
Proof.
  apply (simulate_photoz_residual sample_augmentor [(1, 2, 0.1)] 0.5); [reflexivity |].
  apply (simulate_photoz_returns sample_augmentor [(1, 2, 0.1)] eq_refl).
  exists 0%nat, (1, 2, 0.1), 1%Z, 1.
  repeat split; [set_solver |]. cbn. apply Rltb_false. lra.
Defined.

(** X6: the test of the loop is [new_photoz < 0]: a candidate equal to 0 is
    accepted, so a photo-z of exactly 0 can be returned. *)
Theorem simulate_photoz_accepts_zero (self : PlasticcAugmentor)
    (photoz_reference : list photoz_row) (z : R) (i : nat)
    (ref_specz ref_photoz ref_photoz_err : R) (sign : Z) (noise : R) :
  _photoz_reference self = Some photoz_reference ->
  photoz_reference !! i = Some (ref_specz, ref_photoz, ref_photoz_err) ->
  sign ∈ [(-1)%Z; 1%Z] ->
  z + (ref_photoz - ref_specz) * IZR sign = 0 ->
  returns (_simulate_photoz self z) (Finite 0, ref_photoz_err * noise).
Proof.
  intros Hcache Hi Hs Hzero. apply (simulate_photoz_returns _ _ Hcache).
  exists i, (ref_specz, ref_photoz, ref_photoz_err), sign, noise.
  split; [exact Hi |]. split; [exact Hs |]. cbn. rewrite Hzero.
  repeat split. apply Rltb_false. lra.
Qed.

Lemma simulate_photoz_accepts_zero_witness :
  returns (_simulate_photoz sample_augmentor 1) (Finite 0, 0.1 * 1).
Proof.
  apply (simulate_photoz_accepts_zero sample_augmentor [(1, 2, 0.1)] 1 0%nat
           1 2 0.1 (-1)%Z 1); [reflexivity | reflexivity | set_solver | lra].
Defined.

(** The sign that takes the residual of a row away from 0. *)
Lemma candidate_photoz_accepted (redshift : R) (ref : photoz_row) :
  0 <= redshift ->
  exists (sign : Z) (photoz : R),
    sign ∈ [(-1)%Z; 1%Z] /\ candidate_photoz redshift ref sign = Finite photoz /\
    redshift <= photoz.
Proof.
  intros Hz. destruct ref as [[ref_specz ref_photoz] ref_photoz_err].
  destruct (Rle_dec 0 (ref_photoz - ref_specz)) as [Hd | Hd].
  - exists 1%Z, (redshift + (ref_photoz - ref_specz) * 1).
    split; [set_solver |]. split; [reflexivity | lra].
  - exists (-1)%Z, (redshift + (ref_photoz - ref_specz) * -1).
    split; [set_solver |]. split; [reflexivity | lra].
Qed.

(** X7: for a redshift that is not negative, every row of the reference has
    a sign whose candidate is accepted, and [_simulate_photoz] has a run
    that returns that candidate, which is no smaller than the redshift: the
    loop can only run for ever on a negative redshift. *)
Theorem simulate_photoz_every_row (self : PlasticcAugmentor)
    (photoz_reference : list photoz_row) (redshift : R) (ref : photoz_row) :
  _photoz_reference self = Some photoz_reference ->
  0 <= redshift ->
  ref ∈ photoz_reference ->
  (exists (sign : Z) (photoz : R),
      sign ∈ [(-1)%Z; 1%Z] /\
      candidate_photoz redshift ref sign = Finite photoz /\
      redshift <= photoz /\
      returns (_simulate_photoz self redshift) (Finite photoz, snd ref * 1)) /\
  ~ never_accepted photoz_reference redshift.
Proof.
  intros Hcache Hz Href.
  destruct (candidate_photoz_accepted redshift ref Hz) as (sign & photoz & Hsign & Hc & Hle).
  split.
  - exists sign, photoz. split; [exact Hsign |]. split; [exact Hc |].
    split; [exact Hle |].
    apply list_elem_of_lookup in Href as [i Hi].
    apply (simulate_photoz_returns _ _ Hcache).
    exists i, ref, sign, 1. split; [exact Hi |]. split; [exact Hsign |].
    split; [now rewrite Hc |]. split; [| reflexivity].
    cbn. apply Rltb_false. lra.
  - intros Hnever. specialize (Hnever ref sign Href Hsign).
    rewrite Hc in Hnever. cbn in Hnever. apply Rltb_true in Hnever. lra.
Qed.

Lemma simulate_photoz_every_row_witness :
  (exists (sign : Z) (photoz : R),
      sign ∈ [(-1)%Z; 1%Z] /\
      candidate_photoz 0.1 (1, 2, 0.1) sign = Finite photoz /\
      0.1 <= photoz /\
      returns (_simulate_photoz sample_augmentor 0.1) (Finite photoz, snd (1, 2, 0.1) * 1)) /\
  ~ never_accepted [(1, 2, 0.1)] 0.1.
Proof.
  apply (simulate_photoz_every_row sample_augmentor [(1, 2, 0.1)] 0.1 (1, 2, 0.1));
    [reflexivity | lra | set_solver].
Defined.

Lemma np_random_choice_total (a : nat) : always_returns (np_random_choice (S a)).
Proof.
  cbn. apply always_returns_bind; [apply always_returns_call; exact 0%fin |].
  intros i _. apply always_returns_ret.
Qed.

Lemma np_random_choice_of_total (x : Z) (a : list Z) :
  x ∈ a -> always_returns (np_random_choice_of a).
Proof.
  intros Hx. apply always_returns_bind;
    [apply always_returns_call; exact (exist _ x Hx) |].
  intros y _. apply always_returns_ret.
Qed.

(** A pass over a non-empty reference always comes to its end. *)
Lemma simulate_photoz_body_total (photoz_reference : list photoz_row)
    (redshift : npfloat) :
  photoz_reference <> [] ->
  always_returns (_simulate_photoz_body photoz_reference redshift).
Proof.
  intros Hne. unfold _simulate_photoz_body.
  apply always_returns_bind.
  { destruct photoz_reference; [done | apply np_random_choice_total]. }
  intros i Hi. apply np_random_choice_inv in Hi as [[_ Heq] | (i' & Hlt & Heq)];
    [discriminate |].
  injection Heq as <-.
  apply always_returns_bind.
  { unfold seq_getitem. destruct (lookup_lt_is_Some_2 _ _ Hlt) as [ref ->].
    apply always_returns_ret. }
  intros [[ref_specz ref_photoz] ref_photoz_err] _.
  apply always_returns_bind; [apply (np_random_choice_of_total 1%Z); set_solver |].
  intros sign _. destruct (np_ltb _ _); [apply always_returns_ret |].
  apply always_returns_bind; [apply np_random_normal_total |].
  intros noise _. apply always_returns_ret.
Qed.

(** A loop whose body always comes to its end and never ends in
    [continue] makes one pass. *)
Lemma while_true_total {A : Type} (body : M (loop_ctl A)) :
  always_returns body ->
  (forall c, returns body c -> c <> Continue) ->
  always_returns (while_true body).
Proof.
  intros (Hfin & Hok & c & Hc) Hbreak. split; [| split].
  - unfold while_true. rewrite unfold_iter. apply all_finite_bind.
    + apply all_finite_bind_weak; [exact Hfin |].
      intros [e | [| a]]; apply all_finite_Ret.
    + intros x Hx. apply Leaf_bind_inv in Hx as (y & Hy & Hx).
      destruct y as [e | [| a]]; apply Leaf_Ret_inv in Hx; subst x; cbn.
      * apply all_finite_Ret.
      * now apply Hbreak in Hy.
      * apply all_finite_Ret.
  - intros e He.
    refine (outcome_while_true_inv body (fun r => forall e', r <> inl e') _ _ _ He e eq_refl).
    + intros e' He'. now apply Hok in He'.
    + intros a _ e'. discriminate.
  - destruct c as [| a]; [now apply Hbreak in Hc |].
    exists a. now apply outcome_while_true_break.
Qed.

(** X8: a NaN redshift passes the test of the loop, which is false on NaN:
    over a non-empty reference the call always returns, after one pass, and
    the photo-z it returns is NaN. *)
Theorem simulate_photoz_nan (self : PlasticcAugmentor)
    (photoz_reference : list photoz_row) :
  _photoz_reference self = Some photoz_reference ->
  photoz_reference <> [] ->
  always_returns (_simulate_photoz self NaN) /\
  (forall (photoz : npfloat) (photoz_err : R),
      returns (_simulate_photoz self NaN) (photoz, photoz_err) -> photoz = NaN).
Proof.
  intros Hcache Hne. split.
  - rewrite (simulate_photoz_cached _ _ Hcache).
    apply while_true_total; [now apply simulate_photoz_body_total |].
    intros c Hc ->. unfold returns, _simulate_photoz_body in Hc.
    inv_bind_ok Hc as i Hi.
    inv_bind_ok Hc as [[ref_specz ref_photoz] ref_photoz_err] Hrow.
    inv_bind_ok Hc as sign Hs. cbn in Hc.
    inv_bind_ok Hc as noise Hn. apply outcome_ret_inv in Hc. discriminate.
  - intros photoz photoz_err H.
    apply (simulate_photoz_returns _ _ Hcache) in H
      as (i & ref & sign & noise & _ & _ & Hp & _).
    exact Hp.
Qed.

Lemma simulate_photoz_nan_witness :
  always_returns (_simulate_photoz sample_augmentor NaN) /\
  (forall (photoz : npfloat) (photoz_err : R),
      returns (_simulate_photoz sample_augmentor NaN) (photoz, photoz_err) -> photoz = NaN).
Proof.
  apply (simulate_photoz_nan sample_augmentor [(1, 2, 0.1)]); [reflexivity | discriminate].
Defined.

(** ** The metadata augmentor, field by field *)

(** A key that is in a list of keys written out. *)
Ltac key_in :=
  repeat first [ apply list_elem_of_here | apply list_elem_of_further ].

(** A key that is not in a list of keys written out. *)
Ltac key_not_in :=
  repeat (apply not_elem_of_cons; split; [discriminate |]); apply not_elem_of_nil.

(** [_augment_redshift] assigns six keys at most and removes none. *)
Lemma augment_redshift_frame (self : PlasticcAugmentor)
    (reference_object : AstronomicalObject)
    (augmented_metadata result : gmap string pyval) :
  returns (_augment_redshift self reference_object augmented_metadata) result ->
  (forall key : string,
      key ∉ ["redshift"; "host_specz"; "host_photoz"; "host_photoz_error";
             "augment_brightness"; "distmod"] ->
      result !! key = augmented_metadata !! key) /\
  (forall key : string,
      is_Some (augmented_metadata !! key) -> is_Some (result !! key)).
Proof.
  unfold returns, _augment_redshift. intros H.
  inv_bind_ok H as galactic Hg. destruct (truthy galactic).
  - inv_bind_ok H as brightness Hb. apply outcome_ret_inv in H. injection H as ->.
    split.
    + intros key Hkey.
      rewrite !lookup_insert_ne by (intros Heq; apply Hkey; rewrite <- Heq; set_solver).
      reflexivity.
    + intros key Hkey. rewrite !lookup_insert_is_Some'. tauto.
  - inv_bind_ok H as template_redshift Hz.
    inv_bind_ok H as log_redshift Hu.
    inv_bind_ok H as [aug_photoz aug_photoz_error] Hp.
    inv_bind_ok H as aug_distmod Hd. apply outcome_ret_inv in H. injection H as ->.
    split.
    + intros key Hkey.
      rewrite !lookup_insert_ne by (intros Heq; apply Hkey; rewrite <- Heq; set_solver).
      reflexivity.
    + intros key Hkey. rewrite !lookup_insert_is_Some'. tauto.
Qed.

(** Every run of [_augment_metadata], from its draws. *)
Lemma augment_metadata_returns_full (self : PlasticcAugmentor)
    (reference_object : AstronomicalObject) (result : gmap string pyval) :
  returns (_augment_metadata self reference_object) result ->
  exists (augmented_metadata : gmap string pyval) (ddf mwebv : pyval) (u smear : R),
    returns (_augment_redshift self reference_object (metadata reference_object))
            augmented_metadata /\
    metadata reference_object !! "ddf" = Some ddf /\
    unit_interval u /\
    metadata reference_object !! "mwebv" = Some mwebv /\
    result = <["mwebv" := PyFloat (np_mul (to_float mwebv) smear)]>
               (<["ddf" := PyBool (if truthy ddf then Rltb 0.8 u else false)]>
                  augmented_metadata).
Proof.
  unfold returns, _augment_metadata. intros H.
  inv_bind_ok H as amd Hamd.
  inv_bind_ok H as ddf Hddf.
  apply dict_getitem_inv in Hddf as [(ddf' & Hddf & Heq) | [_ Heq]]; [| discriminate].
  injection Heq as <-.
  inv_bind_ok H as amd' Hamd'.
  inv_bind_ok H as mwebv Hmwebv.
  apply dict_getitem_inv in Hmwebv as [(mwebv' & Hmwebv & Heq) | [_ Heq]]; [| discriminate].
  injection Heq as <-.
  inv_bind_ok H as smear Hsmear. apply outcome_ret_inv in H. injection H as ->.
  assert (Hflag : exists u : R, unit_interval u /\
            amd' = <["ddf" := PyBool (if truthy ddf then Rltb 0.8 u else false)]> amd).
  { destruct (truthy ddf).
    - inv_bind_ok Hamd' as u Hu. apply np_random_rand_inv in Hu as (u' & Hu & Heq).
      injection Heq as <-. apply outcome_ret_inv in Hamd'. injection Hamd' as ->. eauto.
    - apply outcome_ret_inv in Hamd'. injection Hamd' as ->.
      exists 0. split; [unfold unit_interval; lra | reflexivity]. }
  destruct Hflag as (u & Hu & ->).
  rewrite lookup_insert_ne in Hmwebv by done.
  destruct (augment_redshift_frame _ _ _ _ Hamd) as [Hframe _].
  rewrite Hframe in Hmwebv by key_not_in.
  exists amd, ddf, mwebv, u, smear. auto.
Qed.

(** A run of [_augment_metadata] on the sample star. *)
Lemma sample_star_run :
  returns (_augment_metadata sample_augmentor sample_star)
    (<["mwebv" := PyFloat (np_mul (to_float (PyFloat 0.1)) 1)]>
       (<["ddf" := PyBool false]>
          (<["augment_brightness" := PyFloat 0]>
             (<["host_photoz_error" := PyInt 0]>
                (<["host_photoz" := PyInt 0]>
                   (<["host_specz" := PyInt 0]>
                      (<["redshift" := PyInt 0]> (metadata sample_star)))))))).
Proof.
  apply (augment_metadata_returns_wfd _ _ _ (PyBool false) (PyFloat 0.1) 1);
    [| reflexivity | reflexivity | reflexivity].
  unfold returns.
  rewrite (augment_redshift_galactic sample_augmentor sample_star (PyBool true)
             eq_refl (metadata sample_star) eq_refl).
  apply outcome_bind with 0; [apply outcome_call | apply outcome_ret].
Qed.



(** X10: [_augment_metadata] works on a copy and assigns eight keys at
    most.  Every other field of the metadata it returns is the field of the
    reference object (the position on the sky among them), and every field of
    the reference object is still there. *)
Theorem augment_metadata_frame (self : PlasticcAugmentor)
    (reference_object : AstronomicalObject) (result : gmap string pyval) :
  returns (_augment_metadata self reference_object) result ->
  (forall key : string,
      key ∉ assigned_keys -> result !! key = metadata reference_object !! key) /\
  (forall key : string,
      is_Some (metadata reference_object !! key) -> is_Some (result !! key)).
Proof.
  intros H.
  apply augment_metadata_returns_full in H
    as (amd & ddf & mwebv & u & smear & Hamd & _ & _ & _ & ->).
  destruct (augment_redshift_frame _ _ _ _ Hamd) as [Hframe Hkeep].
  split.
  - intros key Hkey. unfold assigned_keys in Hkey.
    rewrite !lookup_insert_ne by (intros Heq; apply Hkey; rewrite <- Heq; set_solver).
    apply Hframe. intros Hin. apply Hkey.
    repeat (apply elem_of_cons in Hin as [-> | Hin]; [key_in |]).
    now apply elem_of_nil in Hin.
  - intros key Hkey. rewrite !lookup_insert_is_Some'. auto.
Qed.

Lemma augment_metadata_frame_witness :
  exists result : gmap string pyval,
    (forall key : string,
        key ∉ assigned_keys -> result !! key = metadata sample_star !! key) /\
    (forall key : string,
        is_Some (metadata sample_star !! key) -> is_Some (result !! key)).
Proof.
  eexists. apply (augment_metadata_frame sample_augmentor sample_star).
  exact sample_star_run.
Defined.

(** Two blocks with the same first call agree when they agree on the values
    that call returns. *)
Lemma py_bind_ext_returns {A B : Type} (m : M A) (f g : A -> M B) :
  (forall a, returns m a -> f a ≈ g a) -> py_bind m f ≈ py_bind m g.
Proof.
  intros Hfg. unfold py_bind. apply eutt_eq_bind_gen.
  intros [e | a] Hleaf; [reflexivity | now apply Hfg].
Qed.

(** X11: the [mwebv] that [_augment_metadata] writes is the [mwebv] of the
    reference object times one draw from the Gaussian (1, 0.1), made after
    the redshift and the [ddf] flag are set, whatever the branch taken for
    the redshift: the lookup in the augmented metadata finds the value of
    the reference object, which no earlier assignment has touched. *)
Theorem augment_metadata_mwebv (self : PlasticcAugmentor)
    (reference_object : AstronomicalObject) (mwebv : pyval) :
  metadata reference_object !! "mwebv" = Some mwebv ->
  _augment_metadata self reference_object ≈
    (augmented_metadata ⇐
       _augment_redshift self reference_object (metadata reference_object) ;
     ddf ⇐ dict_getitem (metadata reference_object) "ddf" ;
     augmented_metadata ⇐
       (if truthy ddf then
          u ⇐ np_random_rand ;
          py_ret (<["ddf" := PyBool (Rltb 0.8 u)]> augmented_metadata)
        else
          py_ret (<["ddf" := PyBool false]> augmented_metadata)) ;
     smear ⇐ np_random_normal 1 0.1 ;
     py_ret (<["mwebv" := PyFloat (np_mul (to_float mwebv) smear)]> augmented_metadata)) /\
  (forall result : gmap string pyval,
      returns (_augment_metadata self reference_object) result ->
      exists smear : R,
        returns (np_random_normal 1 0.1) smear /\
        result !! "mwebv" = Some (PyFloat (np_mul (to_float mwebv) smear))).
Proof.
  intros Hmwebv. split.
  - unfold _augment_metadata. apply py_bind_ext_returns. intros amd Hamd.
    destruct (augment_redshift_frame _ _ _ _ Hamd) as [Hframe _].
    apply py_bind_ext. intros ddf.
    apply py_bind_ext_returns. intros amd' Hamd'.
    assert (Hmw : amd' !! "mwebv" = Some mwebv).
    { rewrite <- Hmwebv, <- Hframe by key_not_in.
      destruct (truthy ddf).
      - unfold returns in Hamd'. inv_bind_ok Hamd' as u Hu.
        apply outcome_ret_inv in Hamd'. injection Hamd' as ->.
        now rewrite lookup_insert_ne.
      - apply outcome_ret_inv in Hamd'. injection Hamd' as ->.
        now rewrite lookup_insert_ne. }
    unfold dict_getitem. rewrite Hmw. rewrite py_bind_ret_l. reflexivity.
  - intros result H.
    apply augment_metadata_returns_full in H
      as (amd & ddf & mwebv' & u & smear & _ & _ & _ & Hmwebv' & ->).
    rewrite Hmwebv in Hmwebv'. injection Hmwebv' as <-.
    exists smear. split; [apply outcome_call | now simplify_map_eq].
Qed.

Lemma augment_metadata_mwebv_witness :
  _augment_metadata sample_augmentor sample_star ≈
    (augmented_metadata ⇐
       _augment_redshift sample_augmentor sample_star (metadata sample_star) ;
     ddf ⇐ dict_getitem (metadata sample_star) "ddf" ;
     augmented_metadata ⇐
       (if truthy ddf then
          u ⇐ np_random_rand ;
          py_ret (<["ddf" := PyBool (Rltb 0.8 u)]> augmented_metadata)
        else
          py_ret (<["ddf" := PyBool false]> augmented_metadata)) ;
     smear ⇐ np_random_normal 1 0.1 ;
     py_ret (<["mwebv" := PyFloat (np_mul (to_float (PyFloat 0.1)) smear)]>
               augmented_metadata)) /\
  (forall result : gmap string pyval,
      returns (_augment_metadata sample_augmentor sample_star) result ->
      exists smear : R,
        returns (np_random_normal 1 0.1) smear /\
        result !! "mwebv" = Some (PyFloat (np_mul (to_float (PyFloat 0.1)) smear))).
Proof.
  apply (augment_metadata_mwebv sample_augmentor sample_star (PyFloat 0.1)). reflexivity.
Defined.

(** The exception of a call that raised is the one of the whole block. *)
Ltac same_exn :=
  match goal with Heq : inl _ = inl _ |- _ => injection Heq as -> end.

Section Extragalactic.

Variable self : PlasticcAugmentor.
Variable photoz_reference : list photoz_row.
Variable reference_object : AstronomicalObject.
Variable galactic : pyval.
Variable z0 : R.
Hypothesis Hcache : _photoz_reference self = Some photoz_reference.
Hypothesis Hgalactic : metadata reference_object !! "galactic" = Some galactic.
Hypothesis Hextragalactic : truthy galactic = false.
Hypothesis Hredshift : metadata reference_object !! "redshift" = Some (PyFloat z0).
Hypothesis Hpositive : 0 < z0.

(** The bounds of the log-uniform draw are in order and positive. *)
Lemma redshift_bounds_ordered :
  0 < 0.95 * z0 <= Rmin (5 * z0) (1.5 * (1 + z0) + - 1).
Proof using Hpositive. split; [lra | apply Rmin_glb; lra]. Qed.

(** The runs of the non-galactic branch on a positive template redshift. *)
Lemma augment_redshift_extragalactic_inv (augmented_metadata result : gmap string pyval) :
  returns (_augment_redshift self reference_object augmented_metadata) result ->
  exists (v aug_photoz aug_photoz_error : R) (aug_distmod : npfloat),
    0.95 * z0 <= exp v <= Rmin (5 * z0) (1.5 * (1 + z0) + - 1) /\
    0 <= aug_photoz /\
    returns (_simulate_photoz self (exp v)) (Finite aug_photoz, aug_photoz_error) /\
    result = <["distmod" := PyFloat aug_distmod]>
               (<["host_photoz_error" := PyFloat aug_photoz_error]>
                  (<["host_photoz" := PyFloat aug_photoz]>
                     (<["host_specz" := PyFloat (exp v)]>
                        (<["redshift" := PyFloat (exp v)]> augmented_metadata)))).
Proof using Hcache Hgalactic Hextragalactic Hredshift Hpositive.
  unfold returns. intros H.
  rewrite (augment_redshift_extragalactic _ _ _ Hgalactic _ _ Hextragalactic Hredshift) in H.
  cbn zeta in H. inv_bind_ok H as log_redshift Hu.
  apply np_random_uniform_inv in Hu.
  cbn [to_float np_mul np_add np_sub np_neg np_min] in Hu.
  pose proof redshift_bounds_ordered as [Hlow Hup].
  apply log_uniform_range in Hu as (v & Hv & Hrange); [| exact Hlow | exact Hup].
  injection Hv as ->.
  inv_bind_ok H as [aug_photoz aug_photoz_error] Hp.
  pose proof Hp as Hp'.
  apply (simulate_photoz_returns _ _ Hcache) in Hp'
    as (i & [[ref_specz ref_photoz] ref_photoz_err] & sign & noise & _ & _ & -> & Hlt & _).
  cbn in Hlt. apply Rltb_false in Hlt.
  inv_bind_ok H as aug_distmod Hd. apply outcome_ret_inv in H. injection H as ->.
  eexists v, _, aug_photoz_error, aug_distmod.
  split; [exact Hrange |]. split; [exact Hlt |]. split; [exact Hp | reflexivity].
Qed.

Lemma augment_redshift_extragalactic_raises (augmented_metadata : gmap string pyval)
    (e : exn) :
  raises (_augment_redshift self reference_object augmented_metadata) e ->
  photoz_reference = [] /\ e = ValueError "a must be greater than 0".
Proof using Hcache Hgalactic Hextragalactic Hredshift Hpositive.
  unfold raises. intros H.
  rewrite (augment_redshift_extragalactic _ _ _ Hgalactic _ _ Hextragalactic Hredshift) in H.
  cbn zeta in H. inv_bind H as log_redshift Hu.
  { apply np_random_uniform_inv in H.
    cbn [to_float np_mul np_add np_sub np_neg np_min] in H.
    pose proof redshift_bounds_ordered as [Hlow Hup].
    apply log_uniform_range in H as (v & Hv & _); [| exact Hlow | exact Hup].
    subst. discriminate. }
  inv_bind H as [aug_photoz aug_photoz_error] Hp.
  { same_exn. now apply (simulate_photoz_raises _ _ Hcache) in H. }
  inv_bind H as aug_distmod Hd.
  { apply outcome_call_inv in H as [? H]. subst. discriminate. }
  apply outcome_ret_inv in H. discriminate.
Qed.

End Extragalactic.

(** X12: for a non-galactic reference object with a positive redshift, the
    metadata returned holds one positive number as both [redshift] and
    [host_specz], a [host_photoz] that is a number at least 0, and the
    [distmod] that the cosmology gave for that [host_photoz]. *)
Theorem augment_metadata_extragalactic_fields (self : PlasticcAugmentor)
    (photoz_reference : list photoz_row) (reference_object : AstronomicalObject)
    (galactic : pyval) (z0 : R) (result : gmap string pyval) :
  _photoz_reference self = Some photoz_reference ->
  metadata reference_object !! "galactic" = Some galactic ->
  truthy galactic = false ->
  metadata reference_object !! "redshift" = Some (PyFloat z0) ->
  0 < z0 ->
  returns (_augment_metadata self reference_object) result ->
  exists (z photoz photoz_error : R) (distmod : npfloat),
    0 < z /\ 0 <= photoz /\
    result !! "redshift" = Some (PyFloat z) /\
    result !! "host_specz" = Some (PyFloat z) /\
    result !! "host_photoz" = Some (PyFloat photoz) /\
    result !! "host_photoz_error" = Some (PyFloat photoz_error) /\
    result !! "distmod" = Some (PyFloat distmod) /\
    returns (cosmology_distmod photoz) distmod.
Proof.
  intros Hcache Hg Ht Hz Hpos H.
  apply augment_metadata_returns_full in H
    as (amd & ddf & mwebv & u & smear & Hamd & _ & _ & _ & ->).
  apply (augment_redshift_extragalactic_inv _ _ _ _ _ Hcache Hg Ht Hz Hpos) in Hamd
    as (v & p & perr & d & _ & Hp & _ & ->).
  exists (exp v), p, perr, d.
  split; [apply exp_pos |]. split; [exact Hp |].
  repeat split; [now simplify_map_eq .. |]. apply outcome_call.
Qed.

Lemma augment_metadata_extragalactic_fields_witness :
  exists (result : gmap string pyval) (z photoz photoz_error : R) (distmod : npfloat),
    0 < z /\ 0 <= photoz /\
    result !! "redshift" = Some (PyFloat z) /\
    result !! "host_specz" = Some (PyFloat z) /\
    result !! "host_photoz" = Some (PyFloat photoz) /\
    result !! "host_photoz_error" = Some (PyFloat photoz_error) /\
    result !! "distmod" = Some (PyFloat distmod) /\
    returns (cosmology_distmod photoz) distmod.
Proof.
  destruct (augment_metadata_extragalactic_may_return sample_augmentor [(1, 2, 0.1)]
              sample_supernova (PyBool false) 1) as [result Hrun];
    [reflexivity | reflexivity | reflexivity | lra | reflexivity | discriminate
    | eexists; reflexivity | eexists; reflexivity |].
  exists result.
  apply (augment_metadata_extragalactic_fields sample_augmentor [(1, 2, 0.1)]
           sample_supernova (PyBool false) 1);
    [reflexivity | reflexivity | reflexivity | reflexivity | lra | exact Hrun].
Defined.

(** X13: for a non-galactic reference object with a positive redshift,
    [_augment_metadata] raises in three cases only: [ValueError] on an empty
    photo-z reference, and [KeyError] on a reference object without [ddf] or
    without [mwebv].  The draw of the redshift itself never fails. *)
Theorem augment_metadata_extragalactic_raises (self : PlasticcAugmentor)
    (photoz_reference : list photoz_row) (reference_object : AstronomicalObject)
    (galactic : pyval) (z0 : R) (e : exn) :
  _photoz_reference self = Some photoz_reference ->
  metadata reference_object !! "galactic" = Some galactic ->
  truthy galactic = false ->
  metadata reference_object !! "redshift" = Some (PyFloat z0) ->
  0 < z0 ->
  raises (_augment_metadata self reference_object) e ->
  (photoz_reference = [] /\ e = ValueError "a must be greater than 0") \/
  (metadata reference_object !! "ddf" = None /\ e = KeyError "ddf") \/
  (metadata reference_object !! "mwebv" = None /\ e = KeyError "mwebv").
Proof.
  intros Hcache Hg Ht Hz Hpos H. unfold raises, _augment_metadata in H.
  inv_bind H as amd Hamd.
  { same_exn. left.
    now apply (augment_redshift_extragalactic_raises _ _ _ _ _ Hcache Hg Ht Hz Hpos) in H. }
  inv_bind H as ddf Hddf.
  { same_exn. right. left.
    apply dict_getitem_inv in H as [(? & _ & ?) | [Hnone Heq]]; [discriminate |].
    split; [exact Hnone | congruence]. }
  inv_bind H as amd' Hamd'.
  { same_exn. destruct (truthy ddf).
    - inv_bind H as u Hu; [| apply outcome_ret_inv in H; discriminate].
      apply np_random_rand_inv in H as (? & _ & ?). discriminate.
    - apply outcome_ret_inv in H. discriminate. }
  assert (Hmw : amd' !! "mwebv" = metadata reference_object !! "mwebv").
  { destruct (augment_redshift_frame _ _ _ _ Hamd) as [Hframe _].
    rewrite <- Hframe by key_not_in.
    destruct (truthy ddf).
    - inv_bind_ok Hamd' as u Hu. apply outcome_ret_inv in Hamd'. injection Hamd' as ->.
      now rewrite lookup_insert_ne.
    - apply outcome_ret_inv in Hamd'. injection Hamd' as ->.
      now rewrite lookup_insert_ne. }
  inv_bind H as mwebv Hmwebv.
  { same_exn. right. right.
    apply dict_getitem_inv in H as [(? & _ & ?) | [Hnone Heq]]; [discriminate |].
    rewrite Hmw in Hnone. split; [exact Hnone | congruence]. }
  inv_bind H as smear Hsmear.
  { apply outcome_call_inv in H as [? H]. discriminate. }
  apply outcome_ret_inv in H. discriminate.
Qed.

(** With an empty photo-z reference the non-galactic branch has a run that
    raises, on the draw of the reference row. *)
Lemma augment_metadata_empty_reference_raises (self : PlasticcAugmentor)
    (reference_object : AstronomicalObject) (galactic : pyval) (z0 : R) :
  _photoz_reference self = Some [] ->
  metadata reference_object !! "galactic" = Some galactic ->
  truthy galactic = false ->
  metadata reference_object !! "redshift" = Some (PyFloat z0) ->
  0 < z0 ->
  raises (_augment_metadata self reference_object)
         (ValueError "a must be greater than 0").
Proof.
  intros Hcache Hg Ht Hz Hpos. unfold raises, _augment_metadata.
  apply outcome_bind_raise.
  rewrite (augment_redshift_extragalactic _ _ _ Hg _ _ Ht Hz). cbn zeta.
  apply outcome_bind with (a := Finite (ln (0.95 * z0))).
  - apply np_random_uniform_intro.
    cbn [to_float np_mul np_add np_sub np_neg np_min].
    rewrite !np_log_pos; [| apply Rmin_glb_lt; lra | lra]. cbn.
    exists (ln (0.95 * z0)). split; [reflexivity |].
    assert (Hln : ln (0.95 * z0) <= ln (Rmin (5 * z0) (1.5 * (1 + z0) + - (1)))).
    { apply ln_le; [lra | apply Rmin_glb; lra]. }
    rewrite Rmin_left, Rmax_right by assumption. lra.
  - apply outcome_bind_raise. now apply simulate_photoz_empty_raises.
Qed.

Lemma augment_metadata_extragalactic_raises_witness :
  ((@nil photoz_row) = [] /\
   ValueError "a must be greater than 0" = ValueError "a must be greater than 0") \/
  (metadata sample_supernova !! "ddf" = None /\
   ValueError "a must be greater than 0" = KeyError "ddf") \/
  (metadata sample_supernova !! "mwebv" = None /\
   ValueError "a must be greater than 0" = KeyError "mwebv").
Proof.
  apply (augment_metadata_extragalactic_raises
           {| _test_dataset := None; _photoz_reference := Some [] |} []
           sample_supernova (PyBool false) 1);
    [reflexivity | reflexivity | reflexivity | reflexivity | lra |].
  apply (augment_metadata_empty_reference_raises _ _ (PyBool false) 1);
    [reflexivity | reflexivity | reflexivity | reflexivity | lra].
Defined.

(** ** The cadence of the deep fields *)

(** [int] truncates towards zero: it never moves a number away from it and
    never by a whole unit. *)
Lemma py_int_truncates (x : R) :
  (0 <= x -> IZR (py_int x) <= x < IZR (py_int x) + 1) /\
  (x < 0 -> IZR (py_int x) - 1 < x <= IZR (py_int x)).
Proof.
  unfold py_int. split; intros Hx.
  - replace (Rltb x 0) with false by (symmetry; apply Rltb_false; lra).
    destruct (base_Int_part x). lra.
  - apply Rltb_true in Hx as ->. rewrite opp_IZR.
    destruct (base_Int_part (- x)). lra.
Qed.

(** Below the clip level of the wide fields, [int] stays below it. *)
Lemma py_int_below (x : R) : x < 50 -> (py_int x < 50)%Z.
Proof.
  intros Hx. destruct (py_int_truncates x) as [Hpos Hneg].
  destruct (Rle_dec 0 x) as [H0 | H0].
  - apply lt_IZR. destruct (Hpos H0). lra.
  - assert (Hlt : IZR (py_int x) < 1) by (destruct Hneg; lra).
    apply lt_IZR in Hlt. lia.
Qed.

(** X14: for augmented metadata whose [ddf] flag is true,
    [_choose_target_observation_count] is one draw [x] from the Gaussian
    (330, 30) followed by [int(x)], and nothing else.  It always returns;
    [int] truncates towards zero, so the count is within one unit of the
    draw, on the side of zero; and there is no clip on this branch: a draw
    below 50 gives a count below 50. *)
Theorem choose_target_observation_count_ddf (augmented_metadata : gmap string pyval)
    (ddf : pyval) :
  augmented_metadata !! "ddf" = Some ddf ->
  truthy ddf = true ->
  _choose_target_observation_count augmented_metadata ≈
    (x ⇐ np_random_normal 330 30 ; py_ret (py_int x)) /\
  always_returns (_choose_target_observation_count augmented_metadata) /\
  (forall x : R,
      (0 <= x -> IZR (py_int x) <= x < IZR (py_int x) + 1) /\
      (x < 0 -> IZR (py_int x) - 1 < x <= IZR (py_int x)) /\
      (x < 50 -> (py_int x < 50)%Z)).
Proof.
  intros Hddf Ht.
  assert (Heq : _choose_target_observation_count augmented_metadata ≈
                (x ⇐ np_random_normal 330 30 ; py_ret (py_int x))).
  { unfold _choose_target_observation_count, dict_getitem. rewrite Hddf.
    rewrite py_bind_ret_l, Ht. reflexivity. }
  split; [exact Heq |]. split.
  - rewrite Heq. apply always_returns_bind; [apply np_random_normal_total |].
    intros x _. apply always_returns_ret.
  - intros x. destruct (py_int_truncates x) as [Hpos Hneg].
    split; [exact Hpos |]. split; [exact Hneg | apply py_int_below].
Qed.

Lemma choose_target_observation_count_ddf_witness :
  _choose_target_observation_count {[ "ddf" := PyBool true ]} ≈
    (x ⇐ np_random_normal 330 30 ; py_ret (py_int x)) /\
  always_returns (_choose_target_observation_count {[ "ddf" := PyBool true ]}) /\
  (forall x : R,
      (0 <= x -> IZR (py_int x) <= x < IZR (py_int x) + 1) /\
      (x < 0 -> IZR (py_int x) - 1 < x <= IZR (py_int x)) /\
      (x < 50 -> (py_int x < 50)%Z)).
Proof.
  apply (choose_target_observation_count_ddf {[ "ddf" := PyBool true ]} (PyBool true));
    reflexivity.
Defined.

(** X15: the one exception of [_choose_target_observation_count] is the
    [KeyError] of metadata without a [ddf] field, and such metadata give
    nothing else; the component drawn is always one of the three, so [mu] and
    [sigma] are bound whenever they are read. *)
Theorem choose_target_observation_count_raises (augmented_metadata : gmap string pyval)
    (r : exn + Z) :
  (forall e : exn,
      raises (_choose_target_observation_count augmented_metadata) e ->
      augmented_metadata !! "ddf" = None /\ e = KeyError "ddf") /\
  (augmented_metadata !! "ddf" = None ->
   (outcome (_choose_target_observation_count augmented_metadata) r <->
    r = inl (KeyError "ddf"))).
Proof.
  split.
  - intros e H. unfold raises, _choose_target_observation_count in H.
    inv_bind H as ddf Hddf.
    { same_exn. apply dict_getitem_inv in H as [(? & _ & ?) | [Hnone Heq]];
        [discriminate |]. split; [exact Hnone | congruence]. }
    destruct (truthy ddf).
    + inv_bind H as x Hx; [| apply outcome_ret_inv in H; discriminate].
      apply outcome_call_inv in H as [? H]. discriminate.
    + inv_bind H as gauss_choice Hc.
      { unfold np_random_choice_p in H. inv_bind H as c Hcall.
        - apply outcome_call_inv in H as [? H]. discriminate.
        - apply outcome_ret_inv in H. discriminate. }
      unfold np_random_choice_p in Hc. inv_bind_ok Hc as c Hcall.
      apply outcome_ret_inv in Hc. injection Hc as ->.
      inv_bind H as musigma Hm.
      { exfalso. clear Hcall.
        inv_fin c; [| intros c; inv_fin c;
                      [| intros c; inv_fin c; [| intros c; inv_fin c]]];
          cbn; intros H; apply outcome_ret_inv in H; discriminate. }
      destruct musigma as [mu sigma].
      inv_bind H as x Hx; [| apply outcome_ret_inv in H; discriminate].
      apply outcome_call_inv in H as [? H]. discriminate.
  - intros Hnone. unfold _choose_target_observation_count, dict_getitem.
    rewrite Hnone. split.
    + intros H. inv_bind H as ddf Hddf.
      * subst r. apply outcome_raise_inv in H. congruence.
      * apply outcome_raise_inv in Hddf. discriminate.
    + intros ->. apply outcome_bind_raise, outcome_raise.
Qed.

Lemma choose_target_observation_count_raises_witness :
  (∅ : gmap string pyval) !! "ddf" = None /\
  outcome (_choose_target_observation_count ∅) (inl (KeyError "ddf")).
Proof.
  split; [reflexivity |].
  destruct (choose_target_observation_count_raises ∅ (inl (KeyError "ddf")))
    as [_ Hmissing].
  apply Hmissing; reflexivity.
Defined.

(** ** The rows of a noised table *)

Lemma quadrature_gt (error amplitude : R) :
  0 < amplitude -> Rabs error < sqrt (error ^ 2 + amplitude ^ 2).
Proof.
  intros Hs. rewrite <- sqrt_Rsqr_abs. apply sqrt_lt_1_alt. unfold Rsqr.
  split; [nra | nra].
Qed.

Lemma noised_rows_columns (df : DataFrame) (add_stds noise_add : list R) :
  length add_stds = length df -> length noise_add = length df ->
  Forall (Rlt 0) add_stds ->
  Forall2 (fun r r' => band r' = band r /\ detected r' = detected r /\
                       Rabs (flux_error r) < flux_error r')
          df (noised df add_stds noise_add) /\
  flux <$> noised df add_stds noise_add = zip_with Rplus (flux <$> df) noise_add.
Proof.
  unfold noised. revert add_stds noise_add.
  induction df as [| r df IH]; intros [| s add_stds] [| x noise_add] Hs Hx Hpos;
    try discriminate; [split; [constructor | reflexivity] |].
  cbn in Hs, Hx. pose proof (Forall_inv Hpos) as Hs0. apply Forall_inv_tail in Hpos.
  destruct (IH add_stds noise_add) as [IH1 IH2]; [lia | lia | exact Hpos |].
  split.
  - cbn. constructor; [cbn | exact IH1].
    split; [reflexivity |]. split; [reflexivity |]. now apply quadrature_gt.
  - cbn. f_equal. exact IH2.
Qed.

(** X16: the table returned by [_simulate_light_curve_uncertainties] has the
    rows of the table given, in the same order: [band] and [detected] of
    each row are kept, the [flux] is the old one plus one noise term per
    row, and, on a non-empty table, every [flux_error] is above the absolute
    value of the old one, hence positive, also where the old one was zero or
    negative. *)
Theorem simulate_uncertainties_rows (h : gmap nat DataFrame) (observations : nat)
    (augmented_metadata : gmap string pyval) (df : DataFrame)
    (result : nat) (h' : gmap nat DataFrame) :
  h !! observations = Some df ->
  returns (_simulate_light_curve_uncertainties h observations augmented_metadata)
          (result, h') ->
  exists (df' : DataFrame) (noise_add : list R),
    h' !! result = Some df' /\
    length df' = length df /\ length noise_add = length df /\
    flux <$> df' = zip_with Rplus (flux <$> df) noise_add /\
    Forall2 (fun r r' => band r' = band r /\ detected r' = detected r /\
                         Rabs (flux_error r) < flux_error r') df df'.
Proof.
  intros Hdf H.
  apply simulate_uncertainties_returns_inv in H as (df0 & Hdf0 & -> & H).
  rewrite Hdf in Hdf0. injection Hdf0 as <-.
  destruct H as [[-> ->] | (_ & add_stds & noise_add & Hs & Hpos & Hx & ->)].
  - exists [], []. split; [apply lookup_insert_eq |].
    repeat split; constructor.
  - destruct (noised_rows_columns df add_stds noise_add Hs Hx Hpos) as [Hrows Hflux].
    exists (noised df add_stds noise_add), noise_add.
    split; [apply lookup_insert_eq |].
    split; [symmetry; eapply Forall2_length; exact Hrows |]. auto.
Qed.

Lemma simulate_uncertainties_rows_witness :
  exists (df' : DataFrame) (noise_add : list R),
    (<[fresh (dom sample_heap) := noised [sample_row] [1] [0]]> sample_heap)
      !! fresh (dom sample_heap) = Some df' /\
    length df' = length [sample_row] /\ length noise_add = length [sample_row] /\
    flux <$> df' = zip_with Rplus (flux <$> [sample_row]) noise_add /\
    Forall2 (fun r r' => band r' = band r /\ detected r' = detected r /\
                         Rabs (flux_error r) < flux_error r') [sample_row] df'.
Proof.
  apply (simulate_uncertainties_rows sample_heap 0%nat (sample_metadata false 1)
           [sample_row]); [reflexivity |].
  apply (simulate_uncertainties_returns_noised sample_heap 0%nat (sample_metadata false 1)
           [sample_row] (PyBool false) [(1.30, 0.41)] [1] [0]);
    [reflexivity | discriminate | reflexivity
    | repeat constructor | reflexivity | repeat constructor; lra | reflexivity].
Defined.

(** ** The exceptions of the noise injector *)

Lemma list_comprehension_getitem_raises {V : Type} (d : gmap string V)
    (keys : list string) (e : exn) :
  outcome (list_comprehension (fun i => dict_getitem d i) keys) (inl e) ->
  exists (before : list string) (key : string) (after : list string),
    keys = before ++ key :: after /\
    Forall (fun k => is_Some (d !! k)) before /\
    d !! key = None /\ e = KeyError key.
Proof.
  induction keys as [| k keys IH]; intros H; cbn in H.
  - apply outcome_ret_inv in H. discriminate.
  - inv_bind H as v Hv.
    + same_exn.
      apply dict_getitem_inv in H as [(? & _ & ?) | [Hnone Heq]]; [discriminate |].
      exists [], k, keys. split; [reflexivity |]. split; [constructor |].
      split; [exact Hnone | congruence].
    + apply dict_getitem_inv in Hv as [(v' & Hk & _) | [_ Heq]]; [| discriminate].
      inv_bind H as vs Hvs; [| apply outcome_ret_inv in H; discriminate].
      same_exn. apply IH in H as (before & key & after & -> & Hall & Hnone & ->).
      exists (k :: before), key, after. split; [reflexivity |].
      split; [constructor; eauto | auto].
Qed.

Lemma unknown_band_noises (ddf : bool) (b : string) :
  (if ddf then band_noises_ddf else band_noises_wfd) !! b = None -> ~ known_band b.
Proof.
  intros Hnone Hb. apply known_band_noises in Hb as [[v Hv] [w Hw]].
  destruct ddf; congruence.
Qed.

Lemma band_noises_known (ddf : bool) (b : string) :
  is_Some ((if ddf then band_noises_ddf else band_noises_wfd) !! b) -> known_band b.
Proof.
  unfold known_band. rewrite <- !elem_of_dom.
  unfold band_central_wavelengths, band_noises_ddf, band_noises_wfd.
  destruct ddf; rewrite !dom_list_to_map_L; cbn; trivial.
Qed.

Lemma simulate_uncertainties_raises_inv (h : gmap nat DataFrame) (observations : nat)
    (augmented_metadata : gmap string pyval) (df : DataFrame) (e : exn) :
  h !! observations = Some df ->
  raises (_simulate_light_curve_uncertainties h observations augmented_metadata) e ->
  df <> [] /\
  ((augmented_metadata !! "ddf" = None /\ e = KeyError "ddf") \/
   (is_Some (augmented_metadata !! "ddf") /\
    exists (before : DataFrame) (r : row) (after : DataFrame),
      df = before ++ r :: after /\
      Forall (fun r' => known_band (band r')) before /\
      ~ known_band (band r) /\ e = KeyError (band r))).
Proof.
  intros Hdf H. unfold raises, _simulate_light_curve_uncertainties, df_copy in H.
  inv_bind H as [l h1] Hcopy.
  { same_exn. inv_bind H as df0 Hdf0; [| apply outcome_ret_inv in H; discriminate].
    unfold heap_get in H. rewrite Hdf in H. apply outcome_ret_inv in H. discriminate. }
  inv_bind_ok Hcopy as df0 Hdf0. unfold heap_get in Hdf0. rewrite Hdf in Hdf0.
  apply outcome_ret_inv in Hdf0. injection Hdf0 as ->.
  apply outcome_ret_inv in Hcopy. injection Hcopy as -> ->.
  inv_bind H as df1 Hdf1.
  { unfold heap_get in H. rewrite lookup_insert_eq in H.
    apply outcome_ret_inv in H. discriminate. }
  unfold heap_get in Hdf1. rewrite lookup_insert_eq in Hdf1.
  apply outcome_ret_inv in Hdf1. injection Hdf1 as ->.
  destruct (Nat.eqb_spec (length df) 0) as [Hlen | Hlen].
  { apply outcome_ret_inv in H. discriminate. }
  split; [now intros -> |].
  inv_bind H as ddf Hddf.
  { same_exn. left.
    apply dict_getitem_inv in H as [(? & _ & ?) | [Hnone Heq]]; [discriminate |].
    split; [exact Hnone | congruence]. }
  right.
  apply dict_getitem_inv in Hddf as [(ddf' & Hddf & Heq) | [_ Heq]]; [| discriminate].
  injection Heq as <-. split; [eauto |].
  inv_bind H as lognormal_parameters Hparams.
  { same_exn.
    apply list_comprehension_getitem_raises in H
      as (before & key & after & Hsplit & Hall & Hnone & ->).
    apply fmap_app_inv in Hsplit as (before' & rest & -> & Hrest & ->).
    symmetry in Hrest. apply fmap_cons_inv in Hrest as (r & after' & -> & -> & ->).
    exists before', r, after'. split; [reflexivity |].
    split; [| split; [now apply (unknown_band_noises (truthy ddf)) | reflexivity]].
    apply (proj1 (Forall_fmap _ _ _)) in Hall. eapply Forall_impl; [| exact Hall].
    cbn. intros r'. apply band_noises_known. }
  inv_bind H as add_stds Hstds.
  { apply np_random_lognormal_v_inv in H as (? & _ & _ & ?). discriminate. }
  inv_bind H as noise_add Hnoise.
  { apply np_random_normal_v_inv in H as (? & _ & ?). discriminate. }
  apply outcome_ret_inv in H. discriminate.
Qed.

Lemma list_comprehension_getitem_raises_intro {V : Type} (d : gmap string V)
    (before : list string) (key : string) (after : list string) :
  Forall (fun k => is_Some (d !! k)) before -> d !! key = None ->
  outcome (list_comprehension (fun i => dict_getitem d i) (before ++ key :: after))
          (inl (KeyError key)).
Proof.
  intros Hall Hnone. induction Hall as [| k before [v Hk] _ IH]; cbn.
  - apply outcome_bind_raise. unfold dict_getitem. rewrite Hnone. apply outcome_raise.
  - apply outcome_bind with v.
    { unfold dict_getitem. rewrite Hk. apply outcome_ret. }
    apply outcome_bind_raise. exact IH.
Qed.

Lemma simulate_uncertainties_raises_intro (h : gmap nat DataFrame) (observations : nat)
    (augmented_metadata : gmap string pyval) (df : DataFrame) (e : exn) :
  h !! observations = Some df -> df <> [] ->
  (augmented_metadata !! "ddf" = None /\ e = KeyError "ddf") \/
  (is_Some (augmented_metadata !! "ddf") /\
   exists (before : DataFrame) (r : row) (after : DataFrame),
     df = before ++ r :: after /\
     Forall (fun r' => known_band (band r')) before /\
     ~ known_band (band r) /\ e = KeyError (band r)) ->
  raises (_simulate_light_curve_uncertainties h observations augmented_metadata) e.
Proof.
  intros Hdf Hne Hcase. unfold raises, _simulate_light_curve_uncertainties, df_copy.
  apply outcome_bind with (fresh (dom h), <[fresh (dom h) := df]> h).
  { apply outcome_bind with df; [| apply outcome_ret].
    unfold heap_get. rewrite Hdf. apply outcome_ret. }
  apply outcome_bind with df.
  { unfold heap_get. rewrite lookup_insert_eq. apply outcome_ret. }
  destruct (Nat.eqb_spec (length df) 0) as [Hlen | Hlen].
  { now apply length_zero_iff_nil in Hlen. }
  destruct Hcase as [[Hnone ->] | [[ddf Hddf] (before & r & after & -> & Hall & Hr & ->)]].
  - apply outcome_bind_raise. unfold dict_getitem. rewrite Hnone. apply outcome_raise.
  - apply outcome_bind with ddf.
    { unfold dict_getitem. rewrite Hddf. apply outcome_ret. }
    apply outcome_bind_raise. rewrite fmap_app, fmap_cons.
    apply list_comprehension_getitem_raises_intro.
    + apply Forall_fmap. eapply Forall_impl; [| exact Hall]. cbn. intros r' Hr'.
      apply known_band_noises in Hr' as [Hd Hw]. now destruct (truthy ddf).
    + apply eq_None_not_Some. intros Hsome. apply Hr.
      now apply (band_noises_known (truthy ddf)).
Qed.

(** X17: [_simulate_light_curve_uncertainties] raises on a non-empty table
    only, and then a [KeyError]: of [ddf] when the metadata lack it, looked
    up before any band, and otherwise of the first band of the table, in row
    order, that is not a band of the instrument.  Each of these cases does
    raise. *)
Theorem simulate_uncertainties_raises (h : gmap nat DataFrame) (observations : nat)
    (augmented_metadata : gmap string pyval) (df : DataFrame) (e : exn) :
  h !! observations = Some df ->
  raises (_simulate_light_curve_uncertainties h observations augmented_metadata) e <->
  df <> [] /\
  ((augmented_metadata !! "ddf" = None /\ e = KeyError "ddf") \/
   (is_Some (augmented_metadata !! "ddf") /\
    exists (before : DataFrame) (r : row) (after : DataFrame),
      df = before ++ r :: after /\
      Forall (fun r' => known_band (band r')) before /\
      ~ known_band (band r) /\ e = KeyError (band r))).
Proof.
  intros Hdf. split.
  - now apply simulate_uncertainties_raises_inv.
  - intros [Hne Hcase]. now apply (simulate_uncertainties_raises_intro _ _ _ df).
Qed.

Lemma simulate_uncertainties_raises_witness :
  raises (_simulate_light_curve_uncertainties sample_heap 0%nat ∅) (KeyError "ddf") <->
  [sample_row] <> [] /\
  (((∅ : gmap string pyval) !! "ddf" = None /\ KeyError "ddf" = KeyError "ddf") \/
   (is_Some ((∅ : gmap string pyval) !! "ddf") /\
    exists (before : DataFrame) (r : row) (after : DataFrame),
      [sample_row] = before ++ r :: after /\
      Forall (fun r' => known_band (band r')) before /\
      ~ known_band (band r) /\ KeyError "ddf" = KeyError (band r))).
Proof.
  apply (simulate_uncertainties_raises sample_heap 0%nat ∅ [sample_row]). reflexivity.
Defined.

(** ** Noise, then detection *)

Lemma detection_flags_set_detected (column : list bool) (df : DataFrame) (draws : list R) :
  length column = length df ->
  detection_flags (df_set_detected column df) draws = detection_flags df draws.
Proof.
  intros Hlen. unfold detection_flags. do 3 f_equal.
  - revert column Hlen. induction df as [| r df IH]; intros [| b column] Hlen;
      try discriminate; [reflexivity |].
    cbn. f_equal. apply IH. cbn in Hlen. lia.
  - revert column Hlen. induction df as [| r df IH]; intros [| b column] Hlen;
      try discriminate; [reflexivity |].
    cbn. f_equal. apply IH. cbn in Hlen. lia.
Qed.

Lemma df_set_detected_twice (column column' : list bool) (df : DataFrame) :
  length column = length df -> length column' = length df ->
  df_set_detected column' (df_set_detected column df) = df_set_detected column' df.
Proof.
  revert column column'.
  induction df as [| r df IH]; intros [| b column] [| b' column'] Hlen Hlen';
    try discriminate; [reflexivity |].
  cbn. f_equal. apply IH; cbn in Hlen, Hlen'; lia.
Qed.

(** X18: [_simulate_detection] reads [flux] and [flux_error] only: run on
    the table that an earlier run has flagged, it has the outcomes of a run
    on the table as it was before, so the flags of the earlier run are
    overwritten and have no effect on the new ones. *)
Theorem simulate_detection_forgets_flags (h h1 : gmap nat DataFrame) (observations : nat)
    (augmented_metadata : gmap string pyval) (pass_detection : bool)
    (result : nat * bool * gmap nat DataFrame) :
  returns (_simulate_detection h observations augmented_metadata)
          (observations, pass_detection, h1) ->
  returns (_simulate_detection h1 observations augmented_metadata) result <->
  returns (_simulate_detection h observations augmented_metadata) result.
Proof.
  intros H.
  destruct (proj1 (simulate_detection_returns _ _ _ _) H)
    as (df & draws & Hdf & Hlen & _ & Heq).
  injection Heq as -> ->.
  pose proof (length_detection_flags df draws Hlen) as Hflags.
  rewrite !simulate_detection_returns. split.
  - intros (df1 & draws1 & Hdf1 & Hlen1 & Hunit & ->).
    rewrite lookup_insert_eq in Hdf1. injection Hdf1 as <-.
    rewrite length_df_set_detected in Hlen1 by exact Hflags.
    exists df, draws1. split; [exact Hdf |]. split; [exact Hlen1 |].
    split; [exact Hunit |].
    rewrite detection_flags_set_detected by exact Hflags.
    rewrite df_set_detected_twice
      by (try exact Hflags; now apply length_detection_flags).
    now rewrite insert_insert_eq.
  - intros (df1 & draws1 & Hdf1 & Hlen1 & Hunit & ->).
    rewrite Hdf in Hdf1. injection Hdf1 as <-.
    exists (df_set_detected (detection_flags df draws) df), draws1.
    split; [apply lookup_insert_eq |].
    split; [now rewrite length_df_set_detected |].
    split; [exact Hunit |].
    rewrite detection_flags_set_detected by exact Hflags.
    rewrite df_set_detected_twice
      by (try exact Hflags; now apply length_detection_flags).
    now rewrite insert_insert_eq.
Qed.

Lemma simulate_detection_forgets_flags_witness :
  returns (_simulate_detection
             (<[0%nat := df_set_detected (detection_flags [sample_row] [0]) [sample_row]]>
                sample_heap) 0%nat ∅)
          (0%nat, false, sample_heap) <->
  returns (_simulate_detection sample_heap 0%nat ∅) (0%nat, false, sample_heap).
Proof.
  apply (simulate_detection_forgets_flags sample_heap _ 0%nat ∅
           (Nat.leb 2 (np_sum_bool (detection_flags [sample_row] [0])))).
  apply simulate_detection_returns. exists [sample_row], [0].
  split; [reflexivity |]. split; [reflexivity |].
  split; [| reflexivity].
  repeat constructor; lra.
Defined.

(** X19: detection run on the table that the noise injector returns works
    on the copy: it always returns, hands back the copy, and leaves every
    table of the caller's heap, the one given to the noise injector among
    them, as it was before both calls; the copy has the rows of the table
    given, each with a flag, and the light curve passes exactly when two
    flags or more are set. *)
Theorem simulate_noise_then_detection (h h1 : gmap nat DataFrame) (observations copy : nat)
    (augmented_metadata : gmap string pyval) (df : DataFrame) :
  h !! observations = Some df ->
  returns (_simulate_light_curve_uncertainties h observations augmented_metadata)
          (copy, h1) ->
  always_returns (_simulate_detection h1 copy augmented_metadata) /\
  (forall (result : nat) (pass_detection : bool) (h2 : gmap nat DataFrame),
      returns (_simulate_detection h1 copy augmented_metadata)
              (result, pass_detection, h2) ->
      result = copy /\ result <> observations /\
      h2 !! observations = Some df /\
      (forall l : nat, l <> copy -> h2 !! l = h !! l) /\
      exists df' : DataFrame,
        h2 !! copy = Some df' /\
        Forall2 (fun r r' => band r' = band r /\ is_Some (detected r')) df df' /\
        (pass_detection = true <-> (2 <= detected_count df')%nat)).
Proof.
  intros Hdf Hnoise.
  pose proof (simulate_uncertainties_fresh _ _ _ _ _ Hnoise) as (Hne & Hnew & dfn & Hh1).
  assert (Hcopy : exists (dfc : DataFrame),
             h1 !! copy = Some dfc /\
             Forall2 (fun r r' => band r' = band r) df dfc).
  { apply simulate_uncertainties_returns_inv in Hnoise as (df0 & Hdf0 & -> & Hcase).
    rewrite Hdf in Hdf0. injection Hdf0 as <-.
    destruct Hcase as [[-> ->] | (_ & add_stds & noise_add & Hs & Hpos & Hx & ->)].
    - exists []. split; [apply lookup_insert_eq | constructor].
    - exists (noised df add_stds noise_add). split; [apply lookup_insert_eq |].
      destruct (noised_rows_columns df add_stds noise_add Hs Hx Hpos) as [Hrows _].
      eapply Forall2_impl; [| exact Hrows]. cbn. tauto. }
  destruct Hcopy as (dfc & Hdfc & Hbands).
  split; [apply simulate_detection_total; eauto |].
  intros result pass_detection h2 H.
  destruct (proj1 (simulate_detection_returns _ _ _ _) H)
    as (df0 & draws & Hdf0 & Hlen & _ & Heq).
  rewrite Hdfc in Hdf0. injection Hdf0 as <-.
  injection Heq as -> -> ->.
  pose proof (length_detection_flags dfc draws Hlen) as Hflags.
  split; [reflexivity |]. split; [exact Hne |].
  split; [rewrite lookup_insert_ne by congruence; subst h1;
          now rewrite lookup_insert_ne by congruence |].
  split.
  { intros l Hl. rewrite lookup_insert_ne by congruence. subst h1.
    now rewrite lookup_insert_ne by congruence. }
  exists (df_set_detected (detection_flags dfc draws) dfc).
  split; [apply lookup_insert_eq |]. split.
  - pose proof (df_set_detected_rows _ dfc Hflags) as Hrows.
    clear - Hbands Hrows. revert Hrows. generalize (df_set_detected (detection_flags dfc draws) dfc).
    induction Hbands as [| r rc df dfc Hr _ IH]; intros df' Hrows.
    + inversion Hrows. constructor.
    + inversion Hrows as [| ? r' ? df'' (Hb & _ & _ & Hd) Hrest]; subst.
      constructor; [split; [congruence | exact Hd] | now apply IH].
  - rewrite <- np_sum_bool_detected_count by exact Hflags.
    split; [apply (Nat.leb_le 2 (np_sum_bool (detection_flags dfc draws)))
           | apply (Nat.leb_le 2 (np_sum_bool (detection_flags dfc draws)))].
Qed.

Lemma simulate_noise_then_detection_witness :
  always_returns
    (_simulate_detection (<[fresh (dom sample_empty_heap) := []]> sample_empty_heap)
                         (fresh (dom sample_empty_heap)) ∅) /\
  (forall (result : nat) (pass_detection : bool) (h2 : gmap nat DataFrame),
      returns (_simulate_detection
                 (<[fresh (dom sample_empty_heap) := []]> sample_empty_heap)
                 (fresh (dom sample_empty_heap)) ∅)
              (result, pass_detection, h2) ->
      result = fresh (dom sample_empty_heap) /\ result <> 0%nat /\
      h2 !! 0%nat = Some [] /\
      (forall l : nat, l <> fresh (dom sample_empty_heap) ->
                       h2 !! l = sample_empty_heap !! l) /\
      exists df' : DataFrame,
        h2 !! fresh (dom sample_empty_heap) = Some df' /\
        Forall2 (fun r r' => band r' = band r /\ is_Some (detected r')) [] df' /\
        (pass_detection = true <-> (2 <= detected_count df')%nat)).
Proof.
  apply (simulate_noise_then_detection sample_empty_heap _ 0%nat _ ∅ []);
    [reflexivity |].
  now apply simulate_uncertainties_returns_empty.
Defined.

(** ** The probability of detection *)

Lemma gauss_continuity (t : R) : continuity_pt gauss t.
Proof. unfold gauss. reg. Qed.

Lemma gauss_integrable_between (a b : R) : a <= b -> Riemann_integrable gauss a b.
Proof.
  intros Hab. apply continuity_implies_RiemannInt; [exact Hab |].
  intros t _. apply gauss_continuity.
Qed.

Lemma erf_prefactor : 0 < 2 / sqrt PI.
Proof.
  apply Rdiv_lt_0_compat; [lra |]. apply sqrt_lt_R0, PI_RGT_0.
Qed.


(** The integrand is bounded away from 0 on every segment. *)
Lemma gauss_lower (a b t : R) :
  a < t < b -> exp (- (Rmax (Rabs a) (Rabs b) * Rmax (Rabs a) (Rabs b))) <= gauss t.
Proof.
  intros [Hat Htb]. unfold gauss. apply exp_le.
  assert (Ht : Rabs t <= Rmax (Rabs a) (Rabs b)).
  { unfold Rabs at 1. destruct (Rcase_abs t) as [Hneg | Hpos].
    - apply Rle_trans with (Rabs a); [| apply Rmax_l].
      rewrite Rabs_left by lra. lra.
    - apply Rle_trans with (Rabs b); [| apply Rmax_r].
      rewrite Rabs_right by lra. lra. }
  pose proof (Rabs_pos t) as Habs.
  assert (Hsq : t * t = Rabs t * Rabs t).
  { unfold Rabs. destruct (Rcase_abs t); lra. }
  rewrite Hsq. nra.
Qed.

Lemma erf_increasing (a b : R) : a < b -> erf a < erf b.
Proof.
  intros Hab. unfold erf.
  assert (Hle : a <= b) by lra.
  pose proof (RiemannInt_P26 (gauss_integrable a) (gauss_integrable_between a b Hle)
                (gauss_integrable b)) as Hchasles.
  set (c := exp (- (Rmax (Rabs a) (Rabs b) * Rmax (Rabs a) (Rabs b)))).
  assert (Hc : 0 < c) by apply exp_pos.
  pose proof (RiemannInt_P19 (RiemannInt_P14 a b c) (gauss_integrable_between a b Hle) Hle)
    as Hbound.
  rewrite RiemannInt_P15 in Hbound.
  assert (Hint : c * (b - a) <= RiemannInt (gauss_integrable_between a b Hle)).
  { apply Hbound. intros t Ht. unfold fct_cte. now apply gauss_lower. }
  pose proof erf_prefactor as Hk.
  apply Rmult_lt_compat_l; [exact Hk |]. nra.
Qed.

Lemma prob_detected_increasing (s s' : R) :
  s < s' -> prob_detected s < prob_detected s'.
Proof.
  intros Hs. unfold prob_detected.
  assert (H : erf ((s - 5.5) / 2) < erf ((s' - 5.5) / 2)) by (apply erf_increasing; lra).
  lra.
Qed.


Lemma detection_flags_cons (r : row) (df : DataFrame) (u : R) (draws : list R) :
  detection_flags (r :: df) (u :: draws) =
  Rltb u (prob_detected (Rabs (flux r) / flux_error r)) :: detection_flags df draws.
Proof. reflexivity. Qed.


(** [_simulate_detection] on a table that is in the heap: one vector of
    draws, of which the outcome is a function. *)
Lemma simulate_detection_draws (h : gmap nat DataFrame) (observations : nat)
    (augmented_metadata : gmap string pyval) (df : DataFrame) :
  h !! observations = Some df ->
  _simulate_detection h observations augmented_metadata ≈
    (draws ⇐ np_random_rand_v (length df) ;
     py_ret (observations,
             Nat.leb 2 (np_sum_bool (detection_flags df draws)),
             <[observations := df_set_detected (detection_flags df draws) df]> h)).
Proof.
  intros Hdf. unfold _simulate_detection. unfold heap_get at 1. rewrite Hdf.
  rewrite py_bind_ret_l. cbn zeta.
  rewrite length_zip_with, !length_fmap, Nat.min_id.
  apply py_bind_ext_returns. intros draws Hdraws.
  apply np_random_rand_v_inv in Hdraws as (draws' & Hlen & _ & Heq).
  injection Heq as <-.
  fold (detection_flags df draws).
  pose proof (length_detection_flags df draws Hlen) as Hflags.
  unfold heap_get. rewrite lookup_alter_eq, Hdf. cbn [fmap option_fmap option_map].
  rewrite py_bind_ret_l. unfold df_get_detected.
  rewrite mapM_detected_set by exact Hflags.
  rewrite py_bind_ret_l. rewrite (alter_alt_Some _ _ _ _ Hdf). reflexivity.
Qed.




Lemma detection_flags_monotone (df1 df2 : DataFrame) (draws : list R) :
  Forall2 (fun r1 r2 => signal_to_noise r1 <= signal_to_noise r2) df1 df2 ->
  length draws = length df1 ->
  Forall2 (fun b1 b2 : bool => b1 = true -> b2 = true)
          (detection_flags df1 draws) (detection_flags df2 draws).
Proof.
  intros Hs. revert draws.
  induction Hs as [| r1 r2 df1 df2 Hr _ IH]; intros [| u draws] Hlen; try discriminate.
  - constructor.
  - rewrite !detection_flags_cons. constructor; [| apply IH; cbn in Hlen; lia].
    intros Hflag. apply Rltb_true in Hflag. apply Rltb_true.
    destruct Hr as [Hr | Hr].
    + apply prob_detected_increasing in Hr. unfold signal_to_noise in Hr. lra.
    + unfold signal_to_noise in Hr. now rewrite <- Hr.
Qed.

Lemma np_sum_bool_monotone (flags1 flags2 : list bool) :
  Forall2 (fun b1 b2 : bool => b1 = true -> b2 = true) flags1 flags2 ->
  (np_sum_bool flags1 <= np_sum_bool flags2)%nat.
Proof.
  unfold np_sum_bool. induction 1 as [| b1 b2 flags1 flags2 Hb _ IH]; [reflexivity |].
  cbn. destruct b1; [rewrite Hb by reflexivity |]; destruct b2; cbn; lia.
Qed.

(** X21: detection grows with the signal to noise.  Take two tables of the
    same length, without a [flux_error] of 0, where each row of the second
    has at least the signal to noise of the same row of the first.  The
    outcome of [_simulate_detection] on each is a function of its vector of
    draws, and for one and the same vector of draws every row flagged in the
    first table is flagged in the second, the second has at least as many
    detections, and it passes if the first passes. *)
Theorem simulate_detection_monotone (h1 h2 : gmap nat DataFrame)
    (observations1 observations2 : nat)
    (augmented_metadata : gmap string pyval) (df1 df2 : DataFrame) :
  h1 !! observations1 = Some df1 ->
  h2 !! observations2 = Some df2 ->
  Forall (fun r => flux_error r <> 0) df1 ->
  Forall (fun r => flux_error r <> 0) df2 ->
  Forall2 (fun r1 r2 => signal_to_noise r1 <= signal_to_noise r2) df1 df2 ->
  _simulate_detection h1 observations1 augmented_metadata ≈
    (draws ⇐ np_random_rand_v (length df1) ;
     py_ret (observations1,
             Nat.leb 2 (np_sum_bool (detection_flags df1 draws)),
             <[observations1 := df_set_detected (detection_flags df1 draws) df1]> h1)) /\
  _simulate_detection h2 observations2 augmented_metadata ≈
    (draws ⇐ np_random_rand_v (length df2) ;
     py_ret (observations2,
             Nat.leb 2 (np_sum_bool (detection_flags df2 draws)),
             <[observations2 := df_set_detected (detection_flags df2 draws) df2]> h2)) /\
  length df1 = length df2 /\
  (forall draws : list R,
      length draws = length df1 ->
      Forall2 (fun b1 b2 : bool => b1 = true -> b2 = true)
              (detection_flags df1 draws) (detection_flags df2 draws) /\
      (np_sum_bool (detection_flags df1 draws) <=
       np_sum_bool (detection_flags df2 draws))%nat /\
      (Nat.leb 2 (np_sum_bool (detection_flags df1 draws)) = true ->
       Nat.leb 2 (np_sum_bool (detection_flags df2 draws)) = true)).
Proof.
  intros Hdf1 Hdf2 _ _ Hs.
  split; [now apply simulate_detection_draws |].
  split; [now apply simulate_detection_draws |].
  split; [eapply Forall2_length; exact Hs |].
  intros draws Hlen.
  pose proof (detection_flags_monotone df1 df2 draws Hs Hlen) as Hmono.
  pose proof (np_sum_bool_monotone _ _ Hmono) as Hsum.
  split; [exact Hmono |]. split; [exact Hsum |].
  intros Hpass. apply (Nat.leb_le 2 (np_sum_bool (detection_flags df1 draws))) in Hpass.
  apply (Nat.leb_le 2 (np_sum_bool (detection_flags df2 draws))). lia.
Qed.

Lemma simulate_detection_monotone_witness :
  _simulate_detection sample_faint_heap 0%nat ∅ ≈
    (draws ⇐ np_random_rand_v (length [sample_faint_row]) ;
     py_ret (0%nat,
             Nat.leb 2 (np_sum_bool (detection_flags [sample_faint_row] draws)),
             <[0%nat := df_set_detected (detection_flags [sample_faint_row] draws)
                          [sample_faint_row]]> sample_faint_heap)) /\
  _simulate_detection sample_heap 0%nat ∅ ≈
    (draws ⇐ np_random_rand_v (length [sample_row]) ;
     py_ret (0%nat,
             Nat.leb 2 (np_sum_bool (detection_flags [sample_row] draws)),
             <[0%nat := df_set_detected (detection_flags [sample_row] draws) [sample_row]]>
               sample_heap)) /\
  length [sample_faint_row] = length [sample_row] /\
  (forall draws : list R,
      length draws = length [sample_faint_row] ->
      Forall2 (fun b1 b2 : bool => b1 = true -> b2 = true)
              (detection_flags [sample_faint_row] draws)
              (detection_flags [sample_row] draws) /\
      (np_sum_bool (detection_flags [sample_faint_row] draws) <=
       np_sum_bool (detection_flags [sample_row] draws))%nat /\
      (Nat.leb 2 (np_sum_bool (detection_flags [sample_faint_row] draws)) = true ->
       Nat.leb 2 (np_sum_bool (detection_flags [sample_row] draws)) = true)).
Proof.
  apply (simulate_detection_monotone sample_faint_heap sample_heap 0%nat 0%nat ∅
           [sample_faint_row] [sample_row]);
    [reflexivity | reflexivity | repeat constructor; cbn; lra
    | repeat constructor; cbn; lra |].
  repeat constructor. unfold signal_to_noise. cbn.
  rewrite !Rabs_pos_eq by lra. lra.
Defined.

(** ** The bands of the instrument and of the noise tables *)

(** X22: the two noise tables of [_simulate_light_curve_uncertainties] and
    the two tables of the instrument module have the same bands, so the
    lookup [band_noises[i]] succeeds exactly on the bands of the instrument,
    whatever the [ddf] flag; and the two parameters of every band of a noise
    table are positive, the width among them, as the lognormal draw needs. *)
Theorem band_tables_agree (b : string) :
  (known_band b <-> is_Some (band_plot_colors !! b)) /\
  (known_band b <-> is_Some (band_noises_ddf !! b)) /\
  (known_band b <-> is_Some (band_noises_wfd !! b)) /\
  (forall (ddf : bool) (mu sigma : R),
      (if ddf then band_noises_ddf else band_noises_wfd) !! b = Some (mu, sigma) ->
      0 < mu /\ 0 < sigma).
Proof.
  split; [| split; [| split]].
  - unfold known_band. rewrite <- !elem_of_dom.
    unfold band_central_wavelengths, band_plot_colors.
    now rewrite !dom_list_to_map_L.
  - split; [intros Hb; now apply known_band_noises in Hb | apply (band_noises_known true)].
  - split; [intros Hb; now apply known_band_noises in Hb | apply (band_noises_known false)].
  - intros ddf mu sigma Hb.
    assert (Hk : known_band b) by (apply (band_noises_known ddf); eauto).
    unfold known_band in Hk. rewrite <- elem_of_dom in Hk.
    unfold band_central_wavelengths in Hk. rewrite dom_list_to_map_L in Hk. cbn in Hk.
    set_unfold in Hk.
    repeat (destruct Hk as [-> | Hk];
            [destruct ddf; vm_compute in Hb; injection Hb as <- <-; lra |]).
    destruct Hk.
Qed.
